(** * spotimap: the nearby-listeners search of [api/api.py]

    A shallow embedding of the Flask backend: the helpers [haversine],
    [get_all_neighbors], [save_user_data] and [get_token_info], and the
    routes [callback], [now_playing], [update_location], [users_nearby] and
    [logout], together with the properties the specification states about
    them and further properties of the code.

    Python floats are kept behind a small interface ([pymath]) with two
    instances: IEEE binary64 ([float_math], on Rocq's primitive floats, with
    the C library's transcendental functions as a parameter) and exact real
    arithmetic ([real_math]).  Firestore is a finite map from document ids to
    documents; pygeohash, urllib and the Spotify client are collaborators the
    code calls and are parameters of the model.  A worked search around
    48.8566 N, 2.3522 E, with the values the collaborators return at its
    points, instantiates the statements on binary64. *)

From Stdlib Require Import Floats Reals Machin Lra Lia ZArith String Ascii.
From stdpp Require Import gmap strings list fin_maps.

Set Default Proof Using "Type".

(** ** Python's float arithmetic and [math] module *)

(** What the code uses of floats: the four operations, [<=], literals,
    [x ** 2], and the [math] functions.  [math.sin], [math.cos], [math.sqrt]
    and [math.asin] raise [ValueError] outside their domain: [None] here. *)
Record pymath (F : Type) : Type := PyMath {
  f_add : F → F → F;
  f_sub : F → F → F;
  f_mul : F → F → F;
  f_div : F → F → F;
  f_leb : F → F → bool;
  (** truth value of a float in a condition: [x != 0.0] *)
  f_truthy : F → bool;
  (** [f_lit m k] is the number written [m * 10^(-k)] as a literal *)
  f_lit : Z → nat → F;
  f_square : F → F;
  m_radians : F → F;
  m_sin : F → option F;
  m_cos : F → option F;
  m_sqrt : F → option F;
  m_asin : F → option F
}.

Arguments f_add {F} _ _ _.
Arguments f_sub {F} _ _ _.
Arguments f_mul {F} _ _ _.
Arguments f_div {F} _ _ _.
Arguments f_leb {F} _ _ _.
Arguments f_truthy {F} _ _.
Arguments f_lit {F} _ _ _.
Arguments f_square {F} _ _.
Arguments m_radians {F} _ _.
Arguments m_sin {F} _ _.
Arguments m_cos {F} _ _.
Arguments m_sqrt {F} _ _.
Arguments m_asin {F} _ _.

Section Distance.
Context {F : Type} (M : pymath F).

Local Notation "x + y" := (f_add M x y).
Local Notation "x - y" := (f_sub M x y).
Local Notation "x * y" := (f_mul M x y).
Local Notation "x / y" := (f_div M x y).

Definition EARTH_RADIUS_KM : F := f_lit M 6371 0.

(** The value [a] of [haversine], the argument handed to [math.sqrt]. *)
Definition haversine_a (lat1 lon1 lat2 lon2 : F) : option F :=
  let lon1 := m_radians M lon1 in
  let lat1 := m_radians M lat1 in
  let lon2 := m_radians M lon2 in
  let lat2 := m_radians M lat2 in
  let dlon := lon2 - lon1 in
  let dlat := lat2 - lat1 in
  s_lat ← m_sin M (dlat / f_lit M 2 0);
  c1 ← m_cos M lat1;
  c2 ← m_cos M lat2;
  s_lon ← m_sin M (dlon / f_lit M 2 0);
  Some (f_square M s_lat + c1 * c2 * f_square M s_lon).

Definition haversine (lat1 lon1 lat2 lon2 : F) : option F :=
  a ← haversine_a lat1 lon1 lat2 lon2;
  r ← m_sqrt M a;
  c ← m_asin M r;
  Some (f_lit M 2 0 * c * EARTH_RADIUS_KM).

(** The threshold chain of [users_nearby] that picks the geohash length of
    the search cells. *)
Definition precision_of_radius (radius_km : F) : nat :=
  if f_leb M radius_km (f_lit M 25 1) then 6
  else if f_leb M radius_km (f_lit M 20 0) then 5
  else if f_leb M radius_km (f_lit M 80 0) then 4
  else if f_leb M radius_km (f_lit M 600 0) then 3
  else 2.
End Distance.

(** ** The binary64 instance *)

(** The C library functions behind [math.sin], [math.cos], [math.asin] and
    [float.__pow__]; IEEE 754 does not fix their values. *)
Record libm : Type := Libm {
  c_sin : float → float;
  c_cos : float → float;
  c_asin : float → float;
  c_pow : float → float → float
}.

(** CPython's [math_1] wrapper: a NaN result from a non-NaN argument, or an
    infinite result from a finite one, is a [ValueError]. *)
Definition math_1 (func : float → float) (x : float) : option float :=
  let r := func x in
  if is_nan r && negb (is_nan x) then None
  else if is_infinity r && is_finite x then None
  else Some r.

Definition float_of_Z (z : Z) : float :=
  match z with
  | Z0 => PrimFloat.zero
  | Zpos _ => PrimFloat.of_uint63 (Uint63.of_Z z)
  | Zneg _ => PrimFloat.opp (PrimFloat.of_uint63 (Uint63.of_Z (- z)))
  end.

(** [math.pi / 180.0], the factor of [math.radians]. *)
Definition degToRad : float := 0x1.1df46a2529d39p-6%float.

Definition float_math (L : libm) : pymath float := {|
  f_add := PrimFloat.add;
  f_sub := PrimFloat.sub;
  f_mul := PrimFloat.mul;
  f_div := PrimFloat.div;
  f_leb := PrimFloat.leb;
  f_truthy x := negb (PrimFloat.eqb x PrimFloat.zero);
  f_lit m k := PrimFloat.div (float_of_Z m) (float_of_Z (10 ^ Z.of_nat k));
  f_square x := c_pow L x 2%float;
  m_radians x := PrimFloat.mul x degToRad;
  m_sin := math_1 (c_sin L);
  m_cos := math_1 (c_cos L);
  m_sqrt := math_1 PrimFloat.sqrt;
  m_asin := math_1 (c_asin L)
|}.

(** ** The exact instance *)

Definition real_math : pymath R := {|
  f_add := Rplus;
  f_sub := Rminus;
  f_mul := Rmult;
  f_div := Rdiv;
  f_leb x y := if Rle_dec x y then true else false;
  f_truthy x := if Req_dec_T x 0 then false else true;
  f_lit m k := (IZR m / 10 ^ k)%R;
  f_square x := (x * x)%R;
  m_radians x := (x * (PI / 180))%R;
  m_sin x := Some (sin x);
  m_cos x := Some (cos x);
  m_sqrt x := if Rlt_dec x 0 then None else Some (sqrt x);
  m_asin x := if Rle_dec (-1) x then if Rle_dec x 1 then Some (asin x) else None else None
|}.

(** ** Strings *)

(** Python's [needle in haystack] on [str]. *)
Fixpoint contains (needle haystack : string) : bool :=
  String.prefix needle haystack ||
  match haystack with
  | EmptyString => false
  | String _ rest => contains needle rest
  end.

(** The geohash alphabet of pygeohash. *)
Definition base32 : string := "0123456789bcdefghjkmnpqrstuvwxyz".

Fixpoint mem_ascii (c : ascii) (s : string) : bool :=
  match s with
  | EmptyString => false
  | String d rest => Ascii.eqb c d || mem_ascii c rest
  end.

Fixpoint is_base32 (s : string) : bool :=
  match s with
  | EmptyString => true
  | String c rest => mem_ascii c base32 && is_base32 rest
  end.

(** ** Documents, requests and rows *)

(** A document of the Firestore collection [users].  A field that is absent
    is [None]; a field that is present holds a value of the type the code
    writes there.  [last_updated] (a server timestamp no code reads) is left
    out.  [track], [artist], [image] and [user_name] are the fields of the
    seeded demonstration users. *)
Record user_doc (F : Type) : Type := UserDoc {
  spotify_access_token : option string;
  spotify_refresh_token : option string;
  expires_at : option Z;
  location_sharing_enabled : option bool;
  latitude : option F;
  longitude : option F;
  geohash : option string;
  track : option string;
  artist : option string;
  image : option string;
  user_name : option string
}.

Arguments UserDoc {F} _ _ _ _ _ _ _ _ _ _ _.
Arguments spotify_access_token {F} _.
Arguments spotify_refresh_token {F} _.
Arguments expires_at {F} _.
Arguments location_sharing_enabled {F} _.
Arguments latitude {F} _.
Arguments longitude {F} _.
Arguments geohash {F} _.
Arguments track {F} _.
Arguments artist {F} _.
Arguments image {F} _.
Arguments user_name {F} _.

(** The dictionary spotipy calls [token_info], with the three keys the code
    reads; [None] is Python's [None]. *)
Record token_info : Type := TokenInfo {
  access_token : option string;
  refresh_token : option string;
  token_expires_at : option Z
}.

(** One element of the JSON array [users_nearby] answers with. *)
Record row (F : Type) : Type := Row {
  row_id : string;
  row_latitude : F;
  row_longitude : F;
  row_track_name : string;
  row_artist : string;
  row_album_art_url : string;
  row_user_name : string;
  row_spotify_url : string;
  row_track_url : string;
  row_artist_url : string
}.

Arguments Row {F} _ _ _ _ _ _ _ _ _ _.
Arguments row_id {F} _.
Arguments row_latitude {F} _.
Arguments row_longitude {F} _.
Arguments row_track_name {F} _.
Arguments row_artist {F} _.
Arguments row_album_art_url {F} _.
Arguments row_user_name {F} _.
Arguments row_spotify_url {F} _.
Arguments row_track_url {F} _.
Arguments row_artist_url {F} _.

(** A value of the JSON body of a request. *)
Inductive json (F : Type) : Type :=
  | JNum (x : F)
  | JStr (s : string)
  | JBool (b : bool)
  | JNull.

Arguments JNum {F} _.
Arguments JStr {F} _.
Arguments JBool {F} _.
Arguments JNull {F}.

(** The keys of the body [users_nearby] reads; [None] is a missing key. *)
Record nearby_body (F : Type) : Type := NearbyBody {
  body_latitude : option (json F);
  body_longitude : option (json F);
  body_radius_km : option (json F)
}.

Arguments NearbyBody {F} _ _ _.
Arguments body_latitude {F} _.
Arguments body_longitude {F} _.
Arguments body_radius_km {F} _.

(** The exceptions that can leave a function of the module. *)
Inductive exn : Type :=
  | ValueError
  | TypeError
  | FirestoreError.

(** The outcome of a call that may raise. *)
Inductive result (A : Type) : Type :=
  | Ok (a : A)
  | Raise (e : exn).

Arguments Ok {A} _.
Arguments Raise {A} _.

(** What a view function answers: a JSON array with status 200, one of the
    error answers the code builds itself, or an exception that leaves the
    view (Flask turns it into a 500). *)
Inductive response (F : Type) : Type :=
  | Json200 (rows : list (row F))
  | Status200
  | Error400
  | Error401
  | Error404
  | Unhandled (e : exn).

Arguments Json200 {F} _.
Arguments Status200 {F}.
Arguments Error400 {F}.
Arguments Error401 {F}.
Arguments Error404 {F}.
Arguments Unhandled {F} _.

Definition rows_of {F : Type} (r : response F) : list (row F) :=
  match r with
  | Json200 rows => rows
  | _ => []
  end.

(** ** Collaborators *)

Inductive direction : Type := top | bottom | right | left.

(** pygeohash: [pgh.encode] and [pgh.get_adjacent]. *)
Record pygeohash (F : Type) : Type := Pygeohash {
  pgh_encode : F → F → nat → string;
  pgh_get_adjacent : string → direction → string
}.

Arguments pgh_encode {F} _ _ _ _.
Arguments pgh_get_adjacent {F} _ _ _.

(** What a Spotify artist, track item, playback state and profile carry, as
    far as the code reads them.  A [None] field is a missing key. *)
Record sp_artist : Type := SpArtist {
  artist_name : option string;
  artist_spotify_url : option string
}.

Record sp_item : Type := SpItem {
  item_name : option string;
  item_artists : list sp_artist;
  item_album_images : list (option string);
  item_spotify_url : option string
}.

Record sp_track : Type := SpTrack {
  is_playing : bool;
  item : option sp_item
}.

Record sp_profile : Type := SpProfile {
  display_name : option string;
  profile_spotify_url : option string
}.

(** spotipy.  A call that raises answers [None];
    [current_user_playing_track] answers [Some None] when Spotify reports no
    playback. *)
Record spotipy : Type := Spotipy {
  is_token_expired : token_info → option bool;
  refresh_access_token : option string → option token_info;
  current_user : string → option sp_profile;
  current_user_playing_track : string → option (option sp_track)
}.

(** The Firestore calls of the module; each may fail on the wire. *)
Inductive fs_op : Type :=
  | FsStream (cell : string)
  | FsGet (id : string)
  | FsSet (id : string)
  | FsUpdate (id : string).

(** ** The module's functions *)

Section Api.
Context {F : Type} (M : pymath F).
(** [urllib.parse.quote], [float] on a string, and the collaborators. *)
Context (pgh : pygeohash F) (quote : string → string).
Context (parse_float : string → option F).
Context (sp : spotipy) (fs_ok : fs_op → bool).

Local Abbreviation doc := (user_doc F).
Local Abbreviation store := (gmap string (user_doc F)).

(** [list(set(neighbors))]: the nine cells without repetition, in the
    order the set yields them. *)
Definition get_all_neighbors (geohash : string) : list string :=
  let neighbors := [geohash] in
  let n := pgh_get_adjacent pgh geohash top in
  let s := pgh_get_adjacent pgh geohash bottom in
  let e := pgh_get_adjacent pgh geohash right in
  let w := pgh_get_adjacent pgh geohash left in
  let neighbors := neighbors ++ [n; s; e; w] in
  let nw := pgh_get_adjacent pgh n left in
  let ne := pgh_get_adjacent pgh n right in
  let sw := pgh_get_adjacent pgh s left in
  let se := pgh_get_adjacent pgh s right in
  let neighbors := neighbors ++ [nw; ne; sw; se] in
  elements (list_to_set neighbors : gset string).

Definition empty_doc : doc :=
  UserDoc None None None None None None None None None None None.

(** [user_ref.set(data_to_set, merge=True)]: the fields written replace
    those of the stored document, the others stay. *)
Definition save_user_data (db : store) (spotify_id : string)
    (token_info : token_info) (location : option (option F * option F))
    (is_sharing : bool) : result store :=
  let old := default empty_doc (db !! spotify_id) in
  let data_to_set :=
    match location with
    | Some (Some lat, Some lon) =>
        UserDoc (access_token token_info) (refresh_token token_info)
          (token_expires_at token_info) (Some is_sharing)
          (Some lat) (Some lon) (Some (pgh_encode pgh lat lon 7))
          (track old) (artist old) (image old) (user_name old)
    | _ =>
        UserDoc (access_token token_info) (refresh_token token_info)
          (token_expires_at token_info) (Some is_sharing)
          (latitude old) (longitude old) (geohash old)
          (track old) (artist old) (image old) (user_name old)
    end in
  if fs_ok (FsSet spotify_id) then Ok (<[spotify_id := data_to_set]> db)
  else Raise FirestoreError.

(** The truth value of [data.get('latitude')]. *)
Definition truthy_float (x : option F) : bool :=
  match x with
  | Some v => f_truthy M v
  | None => false
  end.

Definition truthy_str (x : option string) : bool :=
  match x with
  | Some s => negb (String.eqb s "")
  | None => false
  end.

Definition get_token_info (db : store) (spotify_id : string)
    : result (option string) * store :=
  if fs_ok (FsGet spotify_id) then
    match db !! spotify_id with
    | None => (Ok None, db)
    | Some data =>
        let token_info :=
          TokenInfo (spotify_access_token data) (spotify_refresh_token data)
            (expires_at data) in
        match is_token_expired sp token_info with
        | None => (Raise TypeError, db)
        | Some false => (Ok (access_token token_info), db)
        | Some true =>
            match refresh_access_token sp (refresh_token token_info) with
            | None => (Ok None, db)
            | Some new_token_info =>
                let is_sharing := default false (location_sharing_enabled data) in
                let location :=
                  if truthy_float (latitude data)
                  then Some (latitude data, longitude data) else None in
                match save_user_data db spotify_id new_token_info location is_sharing with
                | Raise _ => (Ok None, db)
                | Ok db' => (Ok (access_token new_token_info), db')
                end
            end
        end
    end
  else (Raise FirestoreError, db).

(** The form fields of [/me/update-location]. *)
Record location_form : Type := LocationForm {
  form_lat : option string;
  form_lon : option string;
  form_sharing : option string
}.

Definition update_location (db : store) (session_id : option string)
    (form : location_form) : response F * store :=
  match session_id with
  | Some spotify_id =>
      if truthy_str session_id then
        let is_sharing := bool_decide (form_sharing form = Some "on") in
        let location_data : result (option (F * F)) :=
          match form_lat form, form_lon form with
          | Some lat, Some lon =>
              if truthy_str (Some lat) && truthy_str (Some lon) then
                match parse_float lat, parse_float lon with
                | Some x, Some y => Ok (Some (x, y))
                | _, _ => Raise ValueError
                end
              else Ok None
          | _, _ => Ok None
          end in
        match location_data with
        | Raise e => (Unhandled e, db)
        | Ok location_data =>
            if fs_ok (FsGet spotify_id) then
              match db !! spotify_id with
              | Some old =>
                  let data_to_update :=
                    match location_data with
                    | Some (lat, lon) =>
                        UserDoc (spotify_access_token old) (spotify_refresh_token old)
                          (expires_at old) (Some is_sharing)
                          (Some lat) (Some lon) (Some (pgh_encode pgh lat lon 7))
                          (track old) (artist old) (image old) (user_name old)
                    | None =>
                        UserDoc (spotify_access_token old) (spotify_refresh_token old)
                          (expires_at old) (Some is_sharing)
                          (latitude old) (longitude old) (geohash old)
                          (track old) (artist old) (image old) (user_name old)
                    end in
                  if fs_ok (FsUpdate spotify_id)
                  then (Status200, <[spotify_id := data_to_update]> db)
                  else (Unhandled FirestoreError, db)
              | None => (Error404, db)
              end
            else (Unhandled FirestoreError, db)
        end
      else (Error401, db)
  | None => (Error401, db)
  end.

(** The compound query of one cell: [geohash >= hash_prefix],
    [geohash <= hash_prefix + '~'] and [location_sharing_enabled == True].
    Firestore compares strings byte by byte. *)
Definition in_cell (hash_prefix : string) (d : doc) : bool :=
  match geohash d with
  | Some g => String.leb hash_prefix g && String.leb g (hash_prefix +:+ "~")
  | None => false
  end
  && bool_decide (location_sharing_enabled d = Some true).

(** [query.stream()]: the matching documents with their ids, in the order
    the store yields them. *)
Definition stream (db : store) (hash_prefix : string) : result (list (string * doc)) :=
  if fs_ok (FsStream hash_prefix)
  then Ok (filter (λ kv, in_cell hash_prefix kv.2 = true) (map_to_list db))
  else Raise FirestoreError.

(** The row of a demonstration user, built from the stored fields. *)
Definition fake_row (nearby_user_id : string) (lat lon : F) (user_data : doc) : row F :=
  let track_name := default "Song" (track user_data) in
  let artist_name := default "Artist" (artist user_data) in
  let encoded_query := quote (track_name +:+ " " +:+ artist_name) in
  let fake_track_url := "https://open.spotify.com/search/" +:+ encoded_query in
  let encoded_artist := quote artist_name in
  let fake_artist_url :=
    "https://open.spotify.com/search/" +:+ encoded_artist +:+ "&type=artist" in
  Row nearby_user_id lat lon track_name artist_name
    (default "https://cdn-icons-png.flaticon.com/512/3209/3209995.png" (image user_data))
    (default "Anonymous" (user_name user_data))
    "https://open.spotify.com/" fake_track_url fake_artist_url.

(** The body of [if access_token:]: the row of a user who is playing, [None]
    when nothing is appended (no playback, or an exception the [try]
    swallows). *)
Definition live_row (access_token nearby_user_id : string) (lat lon : F) : option (row F) :=
  let '(real_name, profile_url) :=
    match current_user sp access_token with
    | Some user_profile =>
        match profile_spotify_url user_profile with
        | Some url => (default "Spotify User" (display_name user_profile), url)
        | None => ("Spotify User", "#")
        end
    | None => ("Spotify User", "#")
    end in
  match current_user_playing_track sp access_token with
  | Some (Some track) =>
      if is_playing track then
        it ← item track;
        artist_url ←
          match item_artists it with
          | [] => Some "#"
          | a :: _ => artist_spotify_url a
          end;
        track_name ← item_name it;
        first_artist ← head (item_artists it);
        artist ← artist_name first_artist;
        album_art_url ← mjoin (head (item_album_images it));
        track_url ← item_spotify_url it;
        Some (Row nearby_user_id lat lon track_name artist album_art_url
                real_name profile_url track_url artist_url)
      else None
  | _ => None
  end.

(** The body of [for doc in docs]: the rows collected so far, extended or
    not. *)
Definition visit_doc (spotify_id : string) (center_lat center_lon radius_km : F)
    (nearby_users_data : list (row F)) (db : store) (d : string * doc)
    : result (list (row F)) * store :=
  let '(doc_id, user_data) := d in
  if String.eqb doc_id spotify_id then (Ok nearby_users_data, db)
  else
    match latitude user_data, longitude user_data with
    | Some lat, Some lon =>
        match haversine M center_lat center_lon lat lon with
        | None => (Raise ValueError, db)
        | Some distance =>
            if f_leb M distance (f_mul M radius_km (f_lit M 11 1)) then
              let nearby_user_id := doc_id in
              if contains "fake_user" nearby_user_id then
                (Ok (nearby_users_data ++ [fake_row nearby_user_id lat lon user_data]), db)
              else
                match get_token_info db nearby_user_id with
                | (Raise e, db') => (Raise e, db')
                | (Ok access_token, db') =>
                    match access_token with
                    | Some tok =>
                        if truthy_str access_token then
                          match live_row tok nearby_user_id lat lon with
                          | Some r => (Ok (nearby_users_data ++ [r]), db')
                          | None => (Ok nearby_users_data, db')
                          end
                        else (Ok nearby_users_data, db')
                    | None => (Ok nearby_users_data, db')
                    end
                end
            else (Ok nearby_users_data, db)
        end
    | _, _ => (Ok nearby_users_data, db)
    end.

Fixpoint visit_docs (spotify_id : string) (center_lat center_lon radius_km : F)
    (docs : list (string * doc)) (nearby_users_data : list (row F)) (db : store)
    : result (list (row F)) * store :=
  match docs with
  | [] => (Ok nearby_users_data, db)
  | d :: rest =>
      match visit_doc spotify_id center_lat center_lon radius_km nearby_users_data db d with
      | (Ok acc, db') => visit_docs spotify_id center_lat center_lon radius_km rest acc db'
      | (Raise e, db') => (Raise e, db')
      end
  end.

(** [for hash_prefix in search_hashes]. *)
Fixpoint scan_cells (spotify_id : string) (center_lat center_lon radius_km : F)
    (search_hashes : list string) (nearby_users_data : list (row F)) (db : store)
    : result (list (row F)) * store :=
  match search_hashes with
  | [] => (Ok nearby_users_data, db)
  | hash_prefix :: rest =>
      match stream db hash_prefix with
      | Raise e => (Raise e, db)
      | Ok docs =>
          match visit_docs spotify_id center_lat center_lon radius_km docs nearby_users_data db with
          | (Ok acc, db') => scan_cells spotify_id center_lat center_lon radius_km rest acc db'
          | (Raise e, db') => (Raise e, db')
          end
      end
  end.

(** [float(x)] on a value of the request body. *)
Definition float_of_json (j : json F) : option F :=
  match j with
  | JNum x => Some x
  | JStr s => parse_float s
  | JBool b => Some (f_lit M (if b then 1 else 0) 0)
  | JNull => None
  end.

(** The [try] block of [users_nearby]: [None] where it answers 400. *)
Definition read_body (body : option (nearby_body F)) : option (F * F * F) :=
  data ← body;
  lat ← body_latitude data;
  center_lat ← float_of_json lat;
  lon ← body_longitude data;
  center_lon ← float_of_json lon;
  radius_km ← float_of_json (default (JNum (f_lit M 5 0)) (body_radius_km data));
  Some (center_lat, center_lon, radius_km).

Definition users_nearby (db : store) (session_id : option string)
    (body : option (nearby_body F)) : response F * store :=
  match session_id with
  | Some spotify_id =>
      if truthy_str session_id then
        match read_body body with
        | None => (Error400, db)
        | Some (center_lat, center_lon, radius_km) =>
            let precision := precision_of_radius M radius_km in
            let current_geohash := pgh_encode pgh center_lat center_lon precision in
            let search_hashes := get_all_neighbors current_geohash in
            match scan_cells spotify_id center_lat center_lon radius_km search_hashes [] db with
            | (Ok nearby_users_data, db') => (Json200 nearby_users_data, db')
            | (Raise e, db') => (Unhandled e, db')
            end
        end
      else (Error401, db)
  | None => (Error401, db)
  end.
End Api.

Arguments haversine : simpl never.
Arguments get_token_info : simpl never.
Arguments stream : simpl never.
Arguments visit_doc : simpl never.

(** ** The other routes *)

(** What [/now-playing] answers: the two 401 answers, [is_playing: False],
    the track that is playing, the 500 of the [except] clause, or an
    exception that leaves the view. *)
Inductive playing_response : Type :=
  | NotLoggedIn401
  | TokenExpired401
  | NotPlaying
  | Playing (track_name artist album_art_url track_url artist_url : string)
  | Failed500
  | PlayingUnhandled (e : exn).

(** What [/callback] answers: the redirect to the frontend, the 400 for a
    missing code, or an exception of spotipy or of Firestore that leaves the
    view. *)
Inductive callback_response : Type :=
  | RedirectFrontend
  | NoCode400
  | SpotifyRaised
  | CallbackUnhandled (e : exn).

(** The calls of [callback] to spotipy: [sp_oauth.get_access_token(code)]
    and [sp.current_user()['id']] for a client built on an access token.  A
    call that raises answers [None]. *)
Record spotify_login : Type := SpotifyLogin {
  get_access_token : string → option token_info;
  current_user_id : option string → option string
}.

Section Routes.
Context {F : Type} (M : pymath F).
Context (pgh : pygeohash F).
Context (sp : spotipy) (oauth : spotify_login) (fs_ok : fs_op → bool).

Local Abbreviation doc := (user_doc F).
Local Abbreviation store := (gmap string (user_doc F)).

(** The [try] block of [now_playing], for a client built on [access_token]. *)
Definition current_track_of (access_token : string) : playing_response :=
  match current_user_playing_track sp access_token with
  | Some (Some current_track) =>
      if is_playing current_track then
        match
          it ← item current_track;
          artist_url ←
            match item_artists it with
            | [] => Some "#"
            | a :: _ => artist_spotify_url a
            end;
          track_name ← item_name it;
          first_artist ← head (item_artists it);
          artist ← artist_name first_artist;
          album_art_url ← mjoin (head (item_album_images it));
          track_url ← item_spotify_url it;
          Some (Playing track_name artist album_art_url track_url artist_url)
        with
        | Some answer => answer
        | None => Failed500
        end
      else NotPlaying
  | Some None => NotPlaying
  | None => Failed500
  end.

Definition now_playing (db : store) (session_id : option string)
    : playing_response * store :=
  match session_id with
  | Some spotify_id =>
      if truthy_str session_id then
        match get_token_info M pgh sp fs_ok db spotify_id with
        | (Raise e, db') => (PlayingUnhandled e, db')
        | (Ok access_token, db') =>
            match access_token with
            | Some tok =>
                if truthy_str access_token then (current_track_of tok, db')
                else (TokenExpired401, db')
            | None => (TokenExpired401, db')
            end
        end
      else (NotLoggedIn401, db)
  | None => (NotLoggedIn401, db)
  end.

(** [callback]: the store and the [spotify_id] of the session after it. *)
Definition callback (db : store) (session_id : option string) (code : option string)
    : callback_response * store * option string :=
  match code with
  | Some c =>
      if truthy_str code then
        match get_access_token oauth c with
        | None => (SpotifyRaised, db, session_id)
        | Some token_info =>
            match current_user_id oauth (access_token token_info) with
            | None => (SpotifyRaised, db, session_id)
            | Some spotify_id =>
                match save_user_data pgh fs_ok db spotify_id token_info None false with
                | Raise e => (CallbackUnhandled e, db, session_id)
                | Ok db' => (RedirectFrontend, db', Some spotify_id)
                end
            end
        end
      else (NoCode400, db, session_id)
  | None => (NoCode400, db, session_id)
  end.

(** [logout]: [session.clear()]. *)
Definition logout (session_id : option string) : option string := None.
End Routes.

Arguments now_playing : simpl never.
Arguments callback : simpl never.

(** * The vocabulary of the statements *)

Section Vocabulary.
Context {F : Type} (M : pymath F) (pgh : pygeohash F).

Local Abbreviation doc := (user_doc F).
Local Abbreviation store := (gmap string (user_doc F)).

(** A token refresh rewrites a document without moving it and without
    turning sharing on. *)
Definition doc_stable (d d' : doc) : Prop :=
  latitude d' = latitude d ∧ longitude d' = longitude d
  ∧ (location_sharing_enabled d' = Some true ↔ location_sharing_enabled d = Some true).

Definition evolves (db db' : store) : Prop :=
  ∀ id d', db' !! id = Some d' → ∃ d, db !! id = Some d ∧ doc_stable d d'.

(** Where a row comes from: a document of the store the search started on,
    shared, at the row's coordinates. *)
Definition from_store (db : store) (r : row F) : Prop :=
  ∃ d, db !! row_id r = Some d
       ∧ location_sharing_enabled d = Some true
       ∧ latitude d = Some (row_latitude r)
       ∧ longitude d = Some (row_longitude r).

(** What the loop body checks before it appends a row. *)
Definition within_reach (spotify_id : string) (center_lat center_lon radius_km : F)
    (r : row F) : Prop :=
  row_id r ≠ spotify_id
  ∧ ∃ distance,
      haversine M center_lat center_lon (row_latitude r) (row_longitude r) = Some distance
      ∧ f_leb M distance (f_mul M radius_km (f_lit M 11 1)) = true.

(** A row the search may hold when it started on [db0]. *)
Definition row_ok (db0 : store) (sid : string) (clat clon radius : F) (r : row F) : Prop :=
  within_reach sid clat clon radius r ∧ from_store db0 r.

(** A streamed document, seen from the store the search started on. *)
Definition snapshot_of (db0 : store) (kv : string * doc) : Prop :=
  ∃ d0, db0 !! kv.1 = Some d0 ∧ doc_stable d0 kv.2
        ∧ location_sharing_enabled kv.2 = Some true.



(** What a write does to the location of a document: it stores a position
    with its geohash of length 7, or it leaves the three fields as they
    were ([old] is the document before, if there was one). *)
Definition location_at_7 (old : option doc) (new : doc) : Prop :=
  (∃ lat lon, latitude new = Some lat ∧ longitude new = Some lon
              ∧ geohash new = Some (pgh_encode pgh lat lon 7))
  ∨ (latitude new = latitude (default empty_doc old)
     ∧ longitude new = longitude (default empty_doc old)
     ∧ geohash new = geohash (default empty_doc old)).

End Vocabulary.

(** ** What the routes keep of the store *)

Section Keeping.
Context {F : Type} (M : pymath F) (pgh : pygeohash F).

Local Abbreviation doc := (user_doc F).
Local Abbreviation store := (gmap string (user_doc F)).

(** The tokens a document holds. *)
Definition tokens_of (d : doc) : token_info :=
  TokenInfo (spotify_access_token d) (spotify_refresh_token d) (expires_at d).

(** What a token refresh keeps of a document: the position, the fields of a
    demonstration user, and whether the location is shared. *)
Definition same_profile (d d' : doc) : Prop :=
  latitude d' = latitude d ∧ longitude d' = longitude d
  ∧ track d' = track d ∧ artist d' = artist d
  ∧ image d' = image d ∧ user_name d' = user_name d
  ∧ (location_sharing_enabled d' = Some true ↔ location_sharing_enabled d = Some true).

(** [db'] holds the documents of [db] under the same ids, each with the same
    profile, and the very same document outside the ids of [touched]. *)
Definition rewrites (touched : string → Prop) (db db' : store) : Prop :=
  ∀ j, (¬ touched j → db' !! j = db !! j)
       ∧ match db !! j, db' !! j with
         | Some d, Some d' => same_profile d d'
         | None, None => True
         | _, _ => False
         end.

(** A stored position comes with its geohash of length 7. *)
Definition geohash_fixed (d : doc) : Prop :=
  ∀ lat lon, latitude d = Some lat → longitude d = Some lon →
    geohash d = Some (pgh_encode pgh lat lon 7).

Definition store_consistent (db : store) : Prop :=
  ∀ id d, db !! id = Some d → geohash_fixed d.

(** The stored geohash of a user, if any, and the cells of a store seen as
    prefixes of it. *)
Definition geohash_of (db : store) (id : string) : option string :=
  db !! id ≫= geohash.

Definition same_cells (db db' : store) : Prop :=
  ∀ id, geohash_of db' id = geohash_of db id.

Definition stored_in_cell (db : store) (cell id : string) : Prop :=
  ∃ g, geohash_of db id = Some g ∧ String.prefix cell g = true.

(** The ids a search started by [sid] may write: any user but the one who
    asks and the demonstration users. *)
Definition refreshable (sid : string) (j : string) : Prop :=
  j ≠ sid ∧ contains "fake_user" j = false.

(** What a part of a search does to the store it starts on. *)
Definition search_step (sid : string) (db db' : store) : Prop :=
  rewrites (refreshable sid) db db'
  ∧ (store_consistent db → store_consistent db' ∧ same_cells db db').

(** No token a search or [now_playing] could ask for has expired. *)
Definition tokens_fresh (sp : spotipy) (db : store) : Prop :=
  ∀ id d, db !! id = Some d → contains "fake_user" id = false →
    is_token_expired sp (tokens_of d) ≠ Some true.

(** No search on [db], by whom and with whatever collaborators, lists the
    user [id]. *)
Definition unlisted (db : store) (id : string) : Prop :=
  ∀ quote parse_float sp fs_ok session_id body,
    Forall (λ r, row_id r ≠ id)
      (rows_of (users_nearby M pgh quote parse_float sp fs_ok db session_id body).1).
End Keeping.

(** [math.sin(d / 2) ** 2] on binary64, the two squares of [haversine]. *)
Definition sq_half_sin (L : libm) (d : float) : option float :=
  (λ s, c_pow L s 2%float) <$> math_1 (c_sin L) (d / 2)%float.

(** * A worked search on binary64 *)

(** The collaborators at the points of the examples: the values glibc
    returns for [sin], [cos] and [asin] (as CPython's [math] hands them on,
    x86-64; they are the correctly rounded ones), and pygeohash's cells
    around 48.8566 N, 2.3522 E.  Anywhere else the tables answer NaN, which
    [math_1] turns into a [ValueError], and the empty string. *)

#[local] Set Warnings "-inexact-float".

(** The value a table gives at [x]. *)
Fixpoint lookup_point (table : list (float * float)) (x : float) : float :=
  match table with
  | [] => PrimFloat.nan
  | (p, v) :: rest => if PrimFloat.eqb p x then v else lookup_point rest x
  end.

Definition sin_points : list (float * float) :=
  [ (0x1.ac3eee6ce8000p-13, 0x1.ac3eee3af9228p-13);
    (0x1.1d7f499defa00p-14, 0x1.1d7f499a3cbf0p-14);
    (0x1.f1ca3eb77c000p-16, 0x1.f1ca3eb6424e2p-16);
    ((-0x1.be8c038e00900p-14), (-0x1.be8c037fd9617p-14));
    ((-0x1.02f5eafabe400p-11), (-0x1.02f5ea4a16267p-11));
    ((-0x1.dda8a779783c0p-12), (-0x1.dda8a66450a47p-12));
    ((-0x1.e3262dd032000p-15), (-0x1.e3262dcbb6b65p-15));
    ((-0x1.421973e021c00p-16), (-0x1.421973dfccc40p-16));
    (0x1.921fb54442d18p-1, 0x1.6a09e667f3bccp-1);
    (0x1.921fb54442d18p+0, 0x1.0000000000000p+0);
    ((-0x1.f1ca3eb77c000p-16), (-0x1.f1ca3eb6424e2p-16));
    (0x1.be8c038e00900p-14, 0x1.be8c037fd9617p-14);
    (0x0p+0, 0x0p+0) ]%float.

Definition cos_points : list (float * float) :=
  [ (0x1.b496366e29f4fp-1, 0x1.50de47a705566p-1);
    (0x1.b4cbbe4bf791fp-1, 0x1.50b5f5e7fbabcp-1);
    (0x1.b49dfd9724d2ep-1, 0x1.50d86c23df7c0p-1);
    (0x1.b414bb78ac95dp-1, 0x1.513fbeb2dbf86p-1);
    (0x1.b4871d3cbb736p-1, 0x1.50e9a63f9c76dp-1);
    (0x1.921fb54442d18p-1, 0x1.6a09e667f3bcdp-1);
    (0x1.2d97c7f3321d2p+1, (-0x1.6a09e667f3bccp-1)) ]%float.

Definition asin_points : list (float * float) :=
  [ (0x1.b66b579e46062p-13, 0x1.b66b57d3d9b80p-13);
    (0x1.3f106c67fca23p-14, 0x1.3f106c6d264d9p-14);
    (0x1.2ef3f369c1005p-11, 0x1.2ef3f4849a4c1p-11);
    (0x1.eea23b2225f83p-15, 0x1.eea23b26f5081p-15);
    (0x0p+0, 0x0p+0) ]%float.

(** [pow(x, 2.0)] is the correctly rounded square at the points used. *)
Definition glibc_points : libm := {|
  c_sin := lookup_point sin_points;
  c_cos := lookup_point cos_points;
  c_asin := lookup_point asin_points;
  c_pow x y := if PrimFloat.eqb y 2 then PrimFloat.mul x x else PrimFloat.nan
|}.

(** The small-angle library: [sin x = x], [cos x = 1], [asin x = x]. *)
Definition small_angle : libm := {|
  c_sin x := x;
  c_cos _ := 1%float;
  c_asin x := x;
  c_pow x y := if PrimFloat.eqb y 2 then PrimFloat.mul x x else PrimFloat.nan
|}.

(** The cell of length 5 of the centre with its eight neighbours, and the
    geohash of length 7 of bob's position. *)
Definition pgh_points : pygeohash float := {|
  pgh_encode lat lon precision :=
    if PrimFloat.eqb lat 48.8566 && PrimFloat.eqb lon 2.3522 && (precision =? 5)%nat
    then "u09tv"
    else if PrimFloat.eqb lat 48.86 && PrimFloat.eqb lon 2.34 && (precision =? 7)%nat
    then "u09tvnx"
    else "";
  pgh_get_adjacent geohash d :=
    if String.eqb geohash "u09tv" then
      match d with top => "u09wj" | bottom => "u09tt" | right => "u09ty" | left => "u09tu" end
    else if String.eqb geohash "u09wj" then
      match d with left => "u09wh" | right => "u09wn" | _ => "" end
    else if String.eqb geohash "u09tt" then
      match d with left => "u09ts" | right => "u09tw" | _ => "" end
    else ""
|}.

(** [urllib.parse.quote] on a byte string: letters, digits and [_.-~/] stay,
    every other byte becomes [%XX]. *)
Definition hex_digit (n : N) : ascii :=
  default "0"%char (String.get (N.to_nat n) "0123456789ABCDEF").

Fixpoint urllib_quote (s : string) : string :=
  match s with
  | EmptyString => EmptyString
  | String c rest =>
      if mem_ascii c "ABCDEFGHIJKLMNOPQRSTUVWXYZabcdefghijklmnopqrstuvwxyz0123456789_.-~/"
      then String c (urllib_quote rest)
      else String "%" (String (hex_digit (N_of_ascii c / 16))
                      (String (hex_digit (N_of_ascii c mod 16)) (urllib_quote rest)))
  end.

(** A Spotify at a fixed clock, where a token without expiry counts as
    expired; bob's token can be refreshed and bob is playing; erin's playback
    request fails. *)
Definition demo_spotify : spotipy := {|
  is_token_expired ti := Some (default 0 (token_expires_at ti) - 1700000000 <? 60)%Z;
  refresh_access_token rt :=
    if bool_decide (rt = Some "refresh-bob")
    then Some (TokenInfo (Some "access-bob-2") (Some "refresh-bob") (Some 1700003600%Z))
    else None;
  current_user tok :=
    if String.eqb tok "access-bob-2"
    then Some (SpProfile (Some "Bob") (Some "https://open.spotify.com/user/bob"))
    else None;
  current_user_playing_track tok :=
    if String.eqb tok "access-bob-2" then
      Some (Some (SpTrack true (Some (SpItem (Some "Harvest Moon")
        [SpArtist (Some "Neil Young") (Some "https://open.spotify.com/artist/ny")]
        [Some "https://i.scdn.co/image/hm"]
        (Some "https://open.spotify.com/track/hm")))))
    else if String.eqb tok "access-erin" then None
    else Some None
|}.

Definition demo_user (token refresh : string) (expires : Z) (sharing : bool)
    (lat lon : float) (geohash : string) : user_doc float :=
  UserDoc (Some token) (Some refresh) (Some expires) (Some sharing)
    (Some lat) (Some lon) (Some geohash) None None None None.

Definition demo_fake_user : user_doc float :=
  UserDoc None None None (Some true) (Some 48.88%float) (Some 2.36%float)
    (Some "u09wjdq") (Some "Get Lucky") (Some "Daft Punk") None None.

Definition demo_db : gmap string (user_doc float) :=
  list_to_map
    [ ("alice", demo_user "access-alice" "refresh-alice" 1700003000 true 48.8566 2.3522 "u09tvw0");
      ("bob", demo_user "access-bob" "refresh-bob" 1699990000 true 48.86 2.34 "u09tvnx");
      ("carol", demo_user "access-carol" "refresh-carol" 1700003000 false 48.88 2.36 "u09wjdq");
      ("dave", demo_user "access-dave" "refresh-dave" 1700003000 true 48.8 2.3 "u09ts7f");
      ("erin", demo_user "access-erin" "refresh-erin" 1700003000 true 48.85 2.35 "u09tvkz");
      ("fake_user_7", demo_fake_user) ].

Definition demo_body : option (nearby_body float) :=
  Some (NearbyBody (Some (JNum 48.8566%float)) (Some (JNum 2.3522%float)) (Some (JNum 5%float))).

(** [float] on the two strings the example posts. *)
Definition demo_parse (s : string) : option float :=
  if String.eqb s "48.86" then Some 48.86%float
  else if String.eqb s "2.34" then Some 2.34%float
  else None.

Definition no_parse : string → option float := λ _, None.
Definition always_up : fs_op → bool := λ _, true.

Definition demo_search (fs_ok : fs_op → bool) : response float * gmap string (user_doc float) :=
  users_nearby (float_math glibc_points) pgh_points urllib_quote no_parse demo_spotify fs_ok
    demo_db (Some "alice") demo_body.

(** The search of the example: the demonstration user and bob are returned;
    alice asks, carol does not share, dave is 7.4 km away, and erin's
    playback request fails. *)
Definition demo_rows : list (row float) :=
  [ Row "fake_user_7" 48.88 2.36 "Get Lucky" "Daft Punk"
      "https://cdn-icons-png.flaticon.com/512/3209/3209995.png" "Anonymous"
      "https://open.spotify.com/"
      "https://open.spotify.com/search/Get%20Lucky%20Daft%20Punk"
      "https://open.spotify.com/search/Daft%20Punk&type=artist";
    Row "bob" 48.86 2.34 "Harvest Moon" "Neil Young" "https://i.scdn.co/image/hm"
      "Bob" "https://open.spotify.com/user/bob" "https://open.spotify.com/track/hm"
      "https://open.spotify.com/artist/ny" ]%float.

(** A Firestore on which the query of one cell fails. *)
Definition cell_down (cell : string) : fs_op → bool :=
  λ op, match op with
        | FsStream c => negb (String.eqb c cell)
        | _ => true
        end.

(** Spotify's answers to two logins: zoe's, who is new, and bob's. *)
Definition demo_login : spotify_login := {|
  get_access_token code :=
    if String.eqb code "code-zoe"
    then Some (TokenInfo (Some "access-zoe") (Some "refresh-zoe") (Some 1700003600%Z))
    else if String.eqb code "code-bob"
    then Some (TokenInfo (Some "access-bob-3") (Some "refresh-bob") (Some 1700007200%Z))
    else None;
  current_user_id tok :=
    if bool_decide (tok = Some "access-zoe") then Some "zoe"
    else if bool_decide (tok = Some "access-bob-3") then Some "bob"
    else None
|}.

(** A store where every position has the geohash [pgh_points] gives it: bob
    at his position, and yann, who has logged in and never posted one. *)
Definition paris_db : gmap string (user_doc float) :=
  list_to_map
    [ ("bob", demo_user "access-bob" "refresh-bob" 1699990000 true 48.86 2.34 "u09tvnx");
      ("yann", UserDoc (Some "access-yann") (Some "refresh-yann") (Some 1700003000%Z)
                 (Some false) None None None None None None None) ].

(** The store of the example without bob, whose token has expired. *)
Definition fresh_db : gmap string (user_doc float) := delete "bob" demo_db.

(** A geohash library on the reals that knows one cell. *)
Definition one_cell : pygeohash R := {|
  pgh_encode _ _ _ := "s";
  pgh_get_adjacent geohash _ := geohash
|}.

(** A request with the radius -1. *)
Definition negative_body : option (nearby_body R) :=
  Some (NearbyBody (Some (JNum 0%R)) (Some (JNum 0%R)) (Some (JNum (-1)%R))).

(** * Properties *)

(** ** The neighbourhood of a cell *)



(** ** What a search may change in the store, and where its rows come from *)

Section SearchFacts.
Context {F : Type} (M : pymath F).
Context (pgh : pygeohash F) (quote : string → string).
Context (parse_float : string → option F).
Context (sp : spotipy) (fs_ok : fs_op → bool).

Local Abbreviation doc := (user_doc F).
Local Abbreviation store := (gmap string (user_doc F)).

Lemma doc_stable_refl (d : doc) : doc_stable d d.
Proof. by repeat split. Qed.

Lemma doc_stable_trans (d1 d2 d3 : doc) : doc_stable d1 d2 → doc_stable d2 d3 → doc_stable d1 d3.
Proof. unfold doc_stable. intros (-> & -> & ->) (-> & -> & ->). done. Qed.

Lemma evolves_refl (db : store) : evolves db db.
Proof. intros id d Hd. exists d. split; [done|apply doc_stable_refl]. Qed.

Lemma evolves_trans (db1 db2 db3 : store) : evolves db1 db2 → evolves db2 db3 → evolves db1 db3.
Proof.
  intros H12 H23 id d3 Hd3.
  destruct (H23 _ _ Hd3) as (d2 & Hd2 & Hs23).
  destruct (H12 _ _ Hd2) as (d1 & Hd1 & Hs12).
  exists d1. split; [done|]. by eapply doc_stable_trans.
Qed.

Lemma get_token_info_evolves db id r db' :
  get_token_info M pgh sp fs_ok db id = (r, db') → evolves db db'.
Proof.
  unfold get_token_info, save_user_data.
  destruct (fs_ok (FsGet id)); [|intros [= _ <-]; apply evolves_refl].
  destruct (db !! id) as [data|] eqn:Hdata; [|intros [= _ <-]; apply evolves_refl].
  destruct (is_token_expired sp _) as [[|]|]; try (intros [= _ <-]; apply evolves_refl).
  destruct (refresh_access_token sp _) as [new|]; [|intros [= _ <-]; apply evolves_refl].
  destruct (fs_ok (FsSet id)); [|intros [= _ <-]; apply evolves_refl].
  intros [= _ <-] j d' Hj.
  destruct (decide (id = j)) as [<-|Hne].
  - rewrite lookup_insert_eq in Hj. exists data. split; [done|].
    injection Hj as <-.
    unfold truthy_float, doc_stable.
    destruct data as [? ? ? sharing [lat|] [lon|] ? ? ? ? ?]; simpl;
      try destruct (f_truthy M lat); simpl;
      repeat split; try done; destruct sharing as [[|]|]; simpl; congruence.
  - rewrite lookup_insert_ne in Hj by done. exists d'. split; [done|apply doc_stable_refl].
Qed.

Lemma fake_row_fields (id : string) (lat lon : F) (d : doc) :
  row_id (fake_row quote id lat lon d) = id
  ∧ row_latitude (fake_row quote id lat lon d) = lat
  ∧ row_longitude (fake_row quote id lat lon d) = lon.
Proof. done. Qed.

Lemma live_row_fields (tok id : string) (lat lon : F) (r : row F) :
  live_row sp tok id lat lon = Some r →
  row_id r = id ∧ row_latitude r = lat ∧ row_longitude r = lon.
Proof.
  unfold live_row.
  destruct (match current_user sp tok with Some _ => _ | None => _ end) as [real_name profile_url].
  destruct (current_user_playing_track sp tok) as [[t|]|]; try done.
  destruct (is_playing t); [|done].
  intros Hr. repeat (simplify_option_eq || case_match); done.
Qed.

(** One step of the loop either leaves the rows alone or appends one row for
    the visited document. *)
Lemma visit_doc_step sid clat clon radius acc db id d acc' db' :
  visit_doc M pgh quote sp fs_ok sid clat clon radius acc db (id, d) = (Ok acc', db') →
  evolves db db'
  ∧ (acc' = acc
     ∨ ∃ r, acc' = acc ++ [r] ∧ within_reach M sid clat clon radius r
            ∧ row_id r = id
            ∧ latitude d = Some (row_latitude r)
            ∧ longitude d = Some (row_longitude r)).
Proof.
  unfold visit_doc.
  destruct (String.eqb id sid) eqn:Hid; [intros [= <- <-]; split; [apply evolves_refl|by left]|].
  apply String.eqb_neq in Hid.
  destruct (latitude d) as [lat|] eqn:Hlat; [|intros [= <- <-]; split; [apply evolves_refl|by left]].
  destruct (longitude d) as [lon|] eqn:Hlon; [|intros [= <- <-]; split; [apply evolves_refl|by left]].
  destruct (haversine M clat clon lat lon) as [distance|] eqn:Hdist; [|done].
  destruct (f_leb M distance _) eqn:Hle; [|intros [= <- <-]; split; [apply evolves_refl|by left]].
  destruct (contains "fake_user" id).
  { intros [= <- <-]. split; [apply evolves_refl|]. right. eexists. split; [done|].
    repeat split; simpl; eauto. }
  destruct (get_token_info M pgh sp fs_ok db id) as [[tok|e] db1] eqn:Htok; [|done].
  apply get_token_info_evolves in Htok.
  destruct tok as [tok|]; [|intros [= <- <-]; split; [done|by left]].
  destruct (truthy_str (Some tok)); [|intros [= <- <-]; split; [done|by left]].
  destruct (live_row sp tok id lat lon) as [r|] eqn:Hr; [|intros [= <- <-]; split; [done|by left]].
  intros [= <- <-]. split; [done|]. right. exists r. split; [done|].
  apply live_row_fields in Hr as (Hrid & Hrlat & Hrlon).
  unfold within_reach. rewrite Hrid, Hrlat, Hrlon. eauto 10.
Qed.

Lemma stream_spec (db : store) (cell : string) (docs : list (string * doc)) :
  stream fs_ok db cell = Ok docs →
  ∀ id d, (id, d) ∈ docs ↔ db !! id = Some d ∧ in_cell cell d = true.
Proof.
  unfold stream. destruct (fs_ok (FsStream cell)); [|done].
  intros [= <-] id d. rewrite list_elem_of_filter, elem_of_map_to_list. simpl.
  split; intros [? ?]; by split.
Qed.

Lemma visit_docs_rows db0 sid clat clon radius docs :
  Forall (snapshot_of db0) docs →
  ∀ acc db acc' db',
    evolves db0 db → Forall (row_ok M db0 sid clat clon radius) acc →
    visit_docs M pgh quote sp fs_ok sid clat clon radius docs acc db = (Ok acc', db') →
    evolves db0 db' ∧ Forall (row_ok M db0 sid clat clon radius) acc'.
Proof.
  induction 1 as [|[id d] docs Hd Hdocs IH]; intros acc db acc' db' Hev Hacc; simpl.
  - by intros [= <- <-].
  - destruct (visit_doc M pgh quote sp fs_ok sid clat clon radius acc db (id, d))
      as [[acc1|e] db1] eqn:Hstep; [|done].
    apply visit_doc_step in Hstep as [Hev1 Hrows].
    apply IH; [by eapply evolves_trans|].
    destruct Hrows as [->|(r & -> & Hadm & Hrid & Hrlat & Hrlon)]; [done|].
    apply Forall_app. split; [done|]. apply Forall_singleton. split; [done|].
    destruct Hd as (d0 & Hd0 & (Hlat & Hlon & Hshare) & Hon). simpl in *.
    exists d0. rewrite Hrid. repeat split; [done|by apply Hshare|congruence|congruence].
Qed.

Lemma scan_cells_rows db0 sid clat clon radius cells :
  ∀ acc db acc' db',
    evolves db0 db → Forall (row_ok M db0 sid clat clon radius) acc →
    scan_cells M pgh quote sp fs_ok sid clat clon radius cells acc db = (Ok acc', db') →
    evolves db0 db' ∧ Forall (row_ok M db0 sid clat clon radius) acc'.
Proof.
  induction cells as [|cell cells IH]; intros acc db acc' db' Hev Hacc; simpl.
  - by intros [= <- <-].
  - destruct (stream fs_ok db cell) as [docs|e] eqn:Hdocs; [|done].
    destruct (visit_docs M pgh quote sp fs_ok sid clat clon radius docs acc db)
      as [[acc1|e] db1] eqn:Hvisit; [|done].
    apply visit_docs_rows with (db0 := db0) in Hvisit as [Hev1 Hacc1]; [by apply IH|..|done|done].
    apply Forall_forall. intros [id d] Hin.
    apply (stream_spec _ _ _ Hdocs) in Hin as [Hd Hcell].
    destruct (Hev _ _ Hd) as (d0 & Hd0 & Hst).
    exists d0. split; [done|]. split; [done|]. simpl.
    unfold in_cell in Hcell. apply andb_true_iff in Hcell as [_ Hon].
    by apply bool_decide_eq_true in Hon.
Qed.

(** Every row of an answer of [users_nearby] passed the checks of the loop
    body and belongs to a shared document of the store. *)
Lemma users_nearby_rows (db : store) (sid : string) (body : option (nearby_body F))
    (clat clon radius : F) :
  read_body M parse_float body = Some (clat, clon, radius) →
  Forall (row_ok M db sid clat clon radius)
    (rows_of (users_nearby M pgh quote parse_float sp fs_ok db (Some sid) body).1).
Proof.
  intros Hbody. unfold users_nearby. rewrite Hbody.
  destruct (truthy_str (Some sid)); [|by apply Forall_nil].
  destruct (scan_cells _ _ _ _ _ _ _ _ _ _ _ _) as [[rows|e] db'] eqn:Hscan; [|by apply Forall_nil].
  apply scan_cells_rows with (db0 := db) in Hscan as [_ Hrows]; [done|apply evolves_refl|by apply Forall_nil].
Qed.

End SearchFacts.

(** ** Radius to precision, on binary64 *)

(** The comparison of the float specification is a lexicographic order on
    sign, exponent and mantissa: it is transitive, and [<] excludes [>=]. *)
Lemma SFleb_trans (x y z : spec_float) :
  SFleb x y = true → SFleb y z = true → SFleb x z = true.
Proof.
  unfold SFleb, SFcompare.
  destruct x as [[|]|[|]| |[|] mx ex], y as [[|]|[|]| |[|] my ey], z as [[|]|[|]| |[|] mz ez];
    try done;
    change (Pos.compare_cont Eq) with Pos.compare;
    destruct (Z.compare_spec ex ey), (Z.compare_spec ey ez), (Z.compare_spec ex ez);
    try done; try lia;
    destruct (Pos.compare_spec mx my), (Pos.compare_spec my mz), (Pos.compare_spec mx mz);
    simpl; try done; try lia.
Qed.

Lemma SFltb_not_leb (x y : spec_float) : SFltb x y = true → SFleb y x = false.
Proof.
  unfold SFltb, SFleb, SFcompare.
  destruct x as [[|]|[|]| |[|] mx ex], y as [[|]|[|]| |[|] my ey];
    try done;
    change (Pos.compare_cont Eq) with Pos.compare;
    destruct (Z.compare_spec ex ey), (Z.compare_spec ey ex);
    try done; try lia;
    destruct (Pos.compare_spec mx my), (Pos.compare_spec my mx);
    simpl; try done; try lia.
Qed.

Lemma float_leb_trans (x y z : float) :
  PrimFloat.leb x y = true → PrimFloat.leb y z = true → PrimFloat.leb x z = true.
Proof. rewrite !leb_spec. apply SFleb_trans. Qed.

Lemma float_ltb_not_leb (x y : float) :
  PrimFloat.ltb x y = true → PrimFloat.leb y x = false.
Proof. rewrite ltb_spec, leb_spec. apply SFltb_not_leb. Qed.

Lemma float_literals (L : libm) :
  f_lit (float_math L) 25 1 = 2.5%float
  ∧ f_lit (float_math L) 20 0 = 20%float
  ∧ f_lit (float_math L) 80 0 = 80%float
  ∧ f_lit (float_math L) 600 0 = 600%float
  ∧ f_lit (float_math L) 11 1 = 0x1.199999999999ap+0%float
  ∧ f_lit (float_math L) 5 0 = 5%float
  ∧ f_lit (float_math L) 2 0 = 2%float
  ∧ f_lit (float_math L) 6371 0 = 6371%float.
Proof. repeat split; vm_compute; reflexivity. Qed.

(** The chain of [users_nearby] with the literals of the source. *)
Lemma precision_of_radius_float (L : libm) (r : float) :
  precision_of_radius (float_math L) r =
    if PrimFloat.leb r 2.5 then 6
    else if PrimFloat.leb r 20 then 5
    else if PrimFloat.leb r 80 then 4
    else if PrimFloat.leb r 600 then 3
    else 2.
Proof.
  unfold precision_of_radius.
  destruct (float_literals L) as (-> & -> & -> & -> & _). reflexivity.
Qed.

(** C6: on binary64 the selector answers 6 up to 2.5 (so for every radius
    [<= 0]), 5 up to 20, 4 up to 80, 3 up to 600 and 2 for everything else,
    and a radius that is larger never gets a larger precision. *)
Theorem precision_of_radius_thresholds (L : libm) :
  let precision := precision_of_radius (float_math L) in
  (∀ r, PrimFloat.leb r 2.5 = true → precision r = 6)
  ∧ (∀ r, PrimFloat.leb r 0 = true → precision r = 6)
  ∧ (∀ r, PrimFloat.ltb 2.5 r = true → PrimFloat.leb r 20 = true → precision r = 5)
  ∧ (∀ r, PrimFloat.ltb 20 r = true → PrimFloat.leb r 80 = true → precision r = 4)
  ∧ (∀ r, PrimFloat.ltb 80 r = true → PrimFloat.leb r 600 = true → precision r = 3)
  ∧ (∀ r, PrimFloat.leb r 600 = false → precision r = 2)
  ∧ (∀ r1 r2, PrimFloat.leb r1 r2 = true → precision r2 ≤ precision r1).
Proof.
  intros precision. subst precision.
  assert (H25_20 : ∀ r, PrimFloat.leb r 2.5 = true → PrimFloat.leb r 20 = true).
  { intros r H. exact (float_leb_trans r 2.5 20 H eq_refl). }
  assert (H20_80 : ∀ r, PrimFloat.leb r 20 = true → PrimFloat.leb r 80 = true).
  { intros r H. exact (float_leb_trans r 20 80 H eq_refl). }
  assert (H80_600 : ∀ r, PrimFloat.leb r 80 = true → PrimFloat.leb r 600 = true).
  { intros r H. exact (float_leb_trans r 80 600 H eq_refl). }
  repeat split; intros r; rewrite !precision_of_radius_float.
  - by intros ->.
  - intros H0. by rewrite (float_leb_trans r 0 2.5 H0 eq_refl).
  - intros Hlt ->. by rewrite (float_ltb_not_leb _ _ Hlt).
  - intros Hlt ->. pose proof (float_ltb_not_leb _ _ Hlt) as Hn.
    destruct (PrimFloat.leb r 2.5) eqn:H1.
    + by rewrite (H25_20 _ H1) in Hn.
    + by rewrite Hn.
  - intros Hlt ->. pose proof (float_ltb_not_leb _ _ Hlt) as Hn.
    destruct (PrimFloat.leb r 2.5) eqn:H1.
    { by rewrite (H20_80 _ (H25_20 _ H1)) in Hn. }
    destruct (PrimFloat.leb r 20) eqn:H2.
    { by rewrite (H20_80 _ H2) in Hn. }
    by rewrite Hn.
  - intros Hn.
    destruct (PrimFloat.leb r 80) eqn:H3.
    { by rewrite (H80_600 _ H3) in Hn. }
    destruct (PrimFloat.leb r 20) eqn:H2.
    { by rewrite (H20_80 _ H2) in H3. }
    destruct (PrimFloat.leb r 2.5) eqn:H1.
    { by rewrite (H25_20 _ H1) in H2. }
    by rewrite Hn.
  - intros r2 Hle. rewrite precision_of_radius_float.
    destruct (PrimFloat.leb r2 2.5) eqn:H1.
    { by rewrite (float_leb_trans r r2 2.5 Hle H1). }
    destruct (PrimFloat.leb r2 20) eqn:H2.
    { rewrite (float_leb_trans r r2 20 Hle H2). destruct (PrimFloat.leb r 2.5); lia. }
    destruct (PrimFloat.leb r2 80) eqn:H3.
    { rewrite (float_leb_trans r r2 80 Hle H3).
      destruct (PrimFloat.leb r 2.5), (PrimFloat.leb r 20); lia. }
    destruct (PrimFloat.leb r2 600) eqn:H4.
    { rewrite (float_leb_trans r r2 600 Hle H4).
      destruct (PrimFloat.leb r 2.5), (PrimFloat.leb r 20), (PrimFloat.leb r 80); lia. }
    destruct (PrimFloat.leb r 2.5), (PrimFloat.leb r 20), (PrimFloat.leb r 80),
      (PrimFloat.leb r 600); lia.
Qed.

(** ** The distance on binary64 *)

(** Rounding to nearest is symmetric under negation, so subtraction is
    antisymmetric and division commutes with negation; multiplication is
    commutative. *)
Lemma binary_round_aux_opp (s : bool) (m e : Z) (l : location) :
  binary_round_aux prec emax (negb s) m e l = SFopp (binary_round_aux prec emax s m e l).
Proof.
  unfold binary_round_aux.
  destruct (shr_fexp prec emax m e l) as [mrs' e'].
  destruct (shr_fexp prec emax _ e' loc_Exact) as [mrs'' e''].
  destruct (shr_m mrs''); simpl; try done.
  by destruct (Z.leb e'' _).
Qed.

Lemma binary_round_opp (s : bool) (m : positive) (e : Z) :
  binary_round prec emax (negb s) m e = SFopp (binary_round prec emax s m e).
Proof.
  unfold binary_round. destruct (shl_align m e _) as [mz ez]. apply binary_round_aux_opp.
Qed.

Lemma SFopp_involutive (x : spec_float) : SFopp (SFopp x) = x.
Proof. destruct x as [s|s| |s m e]; simpl; by rewrite ?negb_involutive. Qed.

Lemma binary_normalize_opp (m e : Z) :
  m ≠ 0%Z →
  binary_normalize prec emax (- m) e false = SFopp (binary_normalize prec emax m e false).
Proof.
  destruct m as [|p|p]; [done| |]; intros _; simpl.
  - apply (binary_round_opp false).
  - by rewrite (binary_round_opp false), SFopp_involutive.
Qed.

Lemma SFsub_antisym (x y : spec_float) :
  SFsub prec emax y x = SFopp (SFsub prec emax x y)
  ∨ (SFsub prec emax y x = S754_zero false ∧ SFsub prec emax x y = S754_zero false).
Proof.
  destruct x as [sx|sx| |sx mx ex], y as [sy|sy| |sy my ey]; simpl;
    try (destruct sx, sy; simpl; by auto); try (by left); try (destruct sx; by left);
    try (left; by rewrite ?negb_involutive).
  rewrite (Z.min_comm ey ex).
  set (a := cond_Zopp sx _). set (b := cond_Zopp sy _).
  replace (b - a)%Z with (- (a - b))%Z by lia.
  destruct (Z.eq_dec (a - b)%Z 0%Z) as [->|Hne].
  - by right.
  - left. by apply binary_normalize_opp.
Qed.

Lemma SFdiv_opp (x y : spec_float) :
  SFdiv prec emax (SFopp x) y = SFopp (SFdiv prec emax x y).
Proof.
  destruct x as [sx|sx| |sx mx ex], y as [sy|sy| |sy my ey]; simpl;
    try done; try (by destruct sx, sy).
  destruct (SFdiv_core_binary prec emax _ ex _ ey) as [[mz ez] lz].
  rewrite <- binary_round_aux_opp. f_equal. by destruct sx, sy.
Qed.

Lemma SFmul_comm (x y : spec_float) : SFmul prec emax x y = SFmul prec emax y x.
Proof.
  destruct x as [sx|sx| |sx mx ex], y as [sy|sy| |sy my ey]; simpl;
    try done; try (by destruct sx, sy).
  by rewrite Pos.mul_comm, Z.add_comm, xorb_comm.
Qed.

Lemma SFeqb_opp (x : spec_float) : SFeqb (SFopp x) (SFopp x) = SFeqb x x.
Proof.
  destruct x as [s|s| |s m e]; simpl; try done; try (by destruct s).
  unfold SFeqb, SFcompare. destruct s; simpl; rewrite Z.compare_refl;
    change (Pos.compare_cont Eq m m) with (Pos.compare m m); by rewrite Pos.compare_refl.
Qed.

Lemma SFabs_opp (x : spec_float) : SFabs (SFopp x) = SFabs x.
Proof. by destruct x. Qed.

Lemma float_sub_antisym (x y : float) :
  (y - x = - (x - y))%float ∨ ((y - x = 0)%float ∧ (x - y = 0)%float).
Proof.
  destruct (SFsub_antisym (Prim2SF x) (Prim2SF y)) as [H|[H1 H2]].
  - left. apply Prim2SF_inj.
    by rewrite FloatAxioms.opp_spec, (FloatAxioms.sub_spec y x), (FloatAxioms.sub_spec x y).
  - right. split; apply Prim2SF_inj; rewrite FloatAxioms.sub_spec; [exact H1|exact H2].
Qed.

Lemma float_div_opp (x y : float) : (- x / y = - (x / y))%float.
Proof.
  apply Prim2SF_inj.
  rewrite FloatAxioms.opp_spec, (FloatAxioms.div_spec (- x)%float y), (FloatAxioms.div_spec x y),
    FloatAxioms.opp_spec.
  apply SFdiv_opp.
Qed.

Lemma float_mul_comm (x y : float) : (x * y = y * x)%float.
Proof.
  apply Prim2SF_inj. rewrite (FloatAxioms.mul_spec x y), (FloatAxioms.mul_spec y x).
  apply SFmul_comm.
Qed.

Lemma SFmul_opp_opp (x : spec_float) :
  SFmul prec emax (SFopp x) (SFopp x) = SFmul prec emax x x.
Proof. destruct x as [s|s| |s m e]; simpl; try done; by destruct s. Qed.

Lemma float_mul_opp_opp (x : float) : (- x * - x = x * x)%float.
Proof.
  apply Prim2SF_inj.
  rewrite (FloatAxioms.mul_spec (- x)%float (- x)%float), (FloatAxioms.mul_spec x x),
    FloatAxioms.opp_spec.
  apply SFmul_opp_opp.
Qed.

Lemma is_nan_opp (x : float) : is_nan (- x) = is_nan x.
Proof.
  unfold is_nan.
  by rewrite (FloatAxioms.eqb_spec (- x)%float (- x)%float), (FloatAxioms.eqb_spec x x),
    FloatAxioms.opp_spec, SFeqb_opp.
Qed.

Lemma abs_opp (x : float) : abs (- x) = abs x.
Proof.
  apply Prim2SF_inj.
  by rewrite (FloatAxioms.abs_spec (- x)%float), (FloatAxioms.abs_spec x), FloatAxioms.opp_spec,
    SFabs_opp.
Qed.

Lemma is_infinity_opp (x : float) : is_infinity (- x) = is_infinity x.
Proof. unfold is_infinity. by rewrite abs_opp. Qed.

Lemma is_finite_opp (x : float) : is_finite (- x) = is_finite x.
Proof. unfold is_finite. by rewrite is_nan_opp, is_infinity_opp. Qed.

Lemma math_1_odd (f : float → float) (x : float) :
  (∀ y, f (- y)%float = (- f y)%float) →
  math_1 f (- x) = PrimFloat.opp <$> math_1 f x.
Proof.
  intros Hodd. unfold math_1. rewrite Hodd, !is_nan_opp, is_infinity_opp, is_finite_opp.
  destruct (is_nan (f x) && negb (is_nan x)); [done|].
  by destruct (is_infinity (f x) && is_finite x).
Qed.

Lemma haversine_a_float (L : libm) (lat1 lon1 lat2 lon2 : float) :
  haversine_a (float_math L) lat1 lon1 lat2 lon2 =
    q_lat ← sq_half_sin L (lat2 * degToRad - lat1 * degToRad)%float;
    c1 ← math_1 (c_cos L) (lat1 * degToRad)%float;
    c2 ← math_1 (c_cos L) (lat2 * degToRad)%float;
    q_lon ← sq_half_sin L (lon2 * degToRad - lon1 * degToRad)%float;
    Some (q_lat + c1 * c2 * q_lon)%float.
Proof.
  unfold haversine_a, sq_half_sin. cbn -[math_1 PrimFloat.div PrimFloat.mul PrimFloat.sub PrimFloat.add].
  change (2 / float_of_Z (10 ^ Z.of_nat 0))%float with 2%float.
  destruct (math_1 (c_sin L) ((lat2 * degToRad - lat1 * degToRad) / 2)%float); [|done].
  simpl. destruct (math_1 (c_cos L) (lat1 * degToRad)); [|done]. simpl.
  destruct (math_1 (c_cos L) (lat2 * degToRad)); [|done]. simpl.
  by destruct (math_1 (c_sin L) _).
Qed.

Section OddSine.
Context (L : libm).
Hypothesis sin_odd : ∀ x, c_sin L (- x)%float = (- c_sin L x)%float.
Hypothesis square_even : ∀ x, c_pow L (- x)%float 2%float = c_pow L x 2%float.

Lemma sq_half_sin_opp (d : float) : sq_half_sin L (- d) = sq_half_sin L d.
Proof using sin_odd square_even.
  unfold sq_half_sin. rewrite float_div_opp, (math_1_odd _ _ sin_odd).
  destruct (math_1 (c_sin L) (d / 2)%float); simpl; [|done]. by rewrite square_even.
Qed.

Lemma sq_half_sin_swap (x y : float) : sq_half_sin L (y - x) = sq_half_sin L (x - y).
Proof using sin_odd square_even.
  destruct (float_sub_antisym x y) as [->|[-> ->]]; [apply sq_half_sin_opp|done].
Qed.

Lemma haversine_symmetric_binary64 (lat1 lon1 lat2 lon2 : float) :
  haversine (float_math L) lat1 lon1 lat2 lon2 = haversine (float_math L) lat2 lon2 lat1 lon1.
Proof using sin_odd square_even.
  unfold haversine. rewrite !haversine_a_float.
  rewrite (sq_half_sin_swap (lat1 * degToRad) (lat2 * degToRad)).
  rewrite (sq_half_sin_swap (lon1 * degToRad) (lon2 * degToRad)).
  destruct (sq_half_sin L (lat1 * degToRad - lat2 * degToRad)) as [q1|]; [|done]. simpl.
  destruct (math_1 (c_cos L) (lat1 * degToRad)) as [c1|],
    (math_1 (c_cos L) (lat2 * degToRad)) as [c2|]; simpl; try done.
  by rewrite (float_mul_comm c1 c2).
Qed.
End OddSine.

Lemma SFeqb_refl_not_nan (a : spec_float) : a ≠ S754_nan → SFeqb a a = true.
Proof.
  destruct a as [s|s| |s m e]; try done; intros _; try (by destruct s).
  unfold SFeqb, SFcompare. destruct s; rewrite Z.compare_refl;
    change (Pos.compare_cont Eq m m) with (Pos.compare m m); by rewrite Pos.compare_refl.
Qed.

(** A finite float is a zero or a finite number of the specification. *)
Lemma is_finite_spec (x : float) :
  is_finite x = true →
  (∃ s, Prim2SF x = S754_zero s) ∨ (∃ s m e, Prim2SF x = S754_finite s m e).
Proof.
  unfold is_finite, is_nan, is_infinity.
  rewrite (FloatAxioms.eqb_spec x x), (FloatAxioms.eqb_spec (abs x) infinity), FloatAxioms.abs_spec.
  change (Prim2SF infinity) with (S754_infinity false).
  destruct (Prim2SF x) as [s|s| |s m e]; simpl; try done; eauto.
  by destruct s.
Qed.

Lemma float_sub_diag (x : float) : is_finite x = true → (x - x = 0)%float.
Proof.
  intros Hx. apply Prim2SF_inj. rewrite FloatAxioms.sub_spec.
  change (Prim2SF 0) with (S754_zero false).
  destruct (is_finite_spec x Hx) as [[s ->]|(s & m & e & ->)]; simpl.
  - by destruct s.
  - by rewrite Z.sub_diag.
Qed.

Lemma float_add_mul_zero (z : float) : is_finite z = true → (0 + z * 0 = 0)%float.
Proof.
  intros Hz. apply Prim2SF_inj. rewrite FloatAxioms.add_spec, FloatAxioms.mul_spec.
  change (Prim2SF 0) with (S754_zero false).
  destruct (is_finite_spec z Hz) as [[s ->]|(s & m & e & ->)]; simpl; by destruct s.
Qed.

Lemma math_1_finite (f : float → float) (x : float) :
  is_finite (f x) = true → math_1 f x = Some (f x).
Proof.
  unfold math_1, is_finite. intros H. apply negb_true_iff, orb_false_iff in H as [-> ->]. done.
Qed.

Lemma haversine_self_binary64 (L : libm) (lat lon : float) :
  c_sin L 0 = 0%float → c_asin L 0 = 0%float → c_pow L 0 2 = 0%float →
  is_finite (lat * degToRad) = true → is_finite (lon * degToRad) = true →
  is_finite (c_cos L (lat * degToRad)) = true →
  is_finite (c_cos L (lat * degToRad) * c_cos L (lat * degToRad)) = true →
  haversine (float_math L) lat lon lat lon = Some 0%float.
Proof.
  intros Hsin Hasin Hpow Hlat Hlon Hcos Hcos2.
  unfold haversine. rewrite haversine_a_float.
  rewrite (float_sub_diag _ Hlat), (float_sub_diag _ Hlon).
  unfold sq_half_sin. change (0 / 2)%float with 0%float.
  rewrite (math_1_finite (c_sin L) 0%float) by (by rewrite Hsin).
  rewrite Hsin. simpl. rewrite Hpow.
  rewrite (math_1_finite (c_cos L) _ Hcos). simpl.
  rewrite (float_add_mul_zero _ Hcos2).
  change (m_sqrt (float_math L) 0%float) with (Some 0%float). simpl.
  rewrite (math_1_finite (c_asin L) 0%float) by (by rewrite Hasin).
  rewrite Hasin. simpl. f_equal.
Qed.

(** ** The distance in exact arithmetic *)

Lemma real_lit_int (m : Z) : f_lit real_math m 0 = IZR m.
Proof. simpl. field. Qed.

(** The argument of the square root, written out. *)
Lemma haversine_a_real (lat1 lon1 lat2 lon2 : R) :
  haversine_a real_math lat1 lon1 lat2 lon2 =
    Some (sin ((lat2 * (PI / 180) - lat1 * (PI / 180)) / 2) ^ 2
          + cos (lat1 * (PI / 180)) * cos (lat2 * (PI / 180))
            * sin ((lon2 * (PI / 180) - lon1 * (PI / 180)) / 2) ^ 2)%R.
Proof.
  unfold haversine_a. rewrite real_lit_int. simpl. f_equal. ring.
Qed.

(** The haversine of the central angle lies between 0 and 1, for all real
    latitudes and longitudes. *)
Lemma hav_bounds (p1 p2 dl : R) :
  (0 <= sin ((p2 - p1) / 2) ^ 2 + cos p1 * cos p2 * sin (dl / 2) ^ 2 <= 1)%R.
Proof.
  pose proof (sin2_cos2 p1) as H1. pose proof (sin2_cos2 p2) as H2.
  pose proof (COS_bound dl) as [Hk1 Hk2].
  pose proof (cos_2a_sin ((p2 - p1) / 2)) as Hp.
  pose proof (cos_2a_sin (dl / 2)) as Hl.
  replace (2 * ((p2 - p1) / 2))%R with (p2 - p1)%R in Hp by field.
  replace (2 * (dl / 2))%R with dl in Hl by field.
  rewrite cos_minus in Hp. unfold Rsqr in *.
  set (s1 := sin p1) in *. set (c1 := cos p1) in *.
  set (s2 := sin p2) in *. set (c2 := cos p2) in *.
  set (k := cos dl) in *.
  set (u := sin ((p2 - p1) / 2)) in *. set (v := sin (dl / 2)) in *.
  assert (Ha : (u ^ 2 + c1 * c2 * v ^ 2 = (1 - (s1 * s2 + c1 * c2 * k)) / 2)%R).
  { replace (u ^ 2)%R with ((1 - (c2 * c1 + s2 * s1)) / 2)%R by (rewrite Hp; field).
    replace (v ^ 2)%R with ((1 - k) / 2)%R by (rewrite Hl; field).
    field. }
  rewrite Ha.
  assert (Hc2 : (0 <= c2 * c2 * (1 - k * k))%R).
  { apply Rmult_le_pos; nra. }
  clear Hp Hl Ha.
  split.
  - pose proof (Rle_0_sqr (s1 - s2)) as Hs. pose proof (Rle_0_sqr (c1 - k * c2)) as Hc.
    unfold Rsqr in Hs, Hc.
    assert (Hid : (2 - 2 * (s1 * s2 + c1 * c2 * k)
                   = (s1 - s2) * (s1 - s2) + (c1 - k * c2) * (c1 - k * c2)
                     + c2 * c2 * (1 - k * k)
                     - (s1 * s1 + c1 * c1 - 1) - (s2 * s2 + c2 * c2 - 1))%R) by ring.
    lra.
  - pose proof (Rle_0_sqr (s1 + s2)) as Hs. pose proof (Rle_0_sqr (c1 + k * c2)) as Hc.
    unfold Rsqr in Hs, Hc.
    assert (Hid : (2 + 2 * (s1 * s2 + c1 * c2 * k)
                   = (s1 + s2) * (s1 + s2) + (c1 + k * c2) * (c1 + k * c2)
                     + c2 * c2 * (1 - k * k)
                     - (s1 * s1 + c1 * c1 - 1) - (s2 * s2 + c2 * c2 - 1))%R) by ring.
    lra.
Qed.

Lemma haversine_real (lat1 lon1 lat2 lon2 a : R) :
  haversine_a real_math lat1 lon1 lat2 lon2 = Some a →
  (0 <= a <= 1)%R →
  haversine real_math lat1 lon1 lat2 lon2 = Some (2 * asin (sqrt a) * 6371)%R.
Proof.
  intros Ha [H0 H1]. unfold haversine. rewrite Ha. simpl.
  destruct (Rlt_dec a 0) as [Hneg|_]; [lra|]. simpl.
  pose proof (sqrt_pos a) as Hs0.
  assert (Hs1 : (sqrt a <= 1)%R).
  { rewrite <- sqrt_1. by apply sqrt_le_1_alt. }
  destruct (Rle_dec (-1) (sqrt a)) as [_|Hn]; [|lra].
  destruct (Rle_dec (sqrt a) 1) as [_|Hn]; [|lra].
  unfold EARTH_RADIUS_KM. simpl. f_equal. field.
Qed.

(** In exact arithmetic the distance does not depend on the order of the two
    points, and the distance of a point to itself is 0. *)
Lemma haversine_symmetric_real (lat1 lon1 lat2 lon2 : R) :
  haversine real_math lat1 lon1 lat2 lon2 = haversine real_math lat2 lon2 lat1 lon1
  ∧ haversine real_math lat1 lon1 lat1 lon1 = Some 0%R.
Proof.
  split.
  - unfold haversine. rewrite !haversine_a_real.
    replace ((lat1 * (PI / 180) - lat2 * (PI / 180)) / 2)%R
      with (- ((lat2 * (PI / 180) - lat1 * (PI / 180)) / 2))%R by field.
    replace ((lon1 * (PI / 180) - lon2 * (PI / 180)) / 2)%R
      with (- ((lon2 * (PI / 180) - lon1 * (PI / 180)) / 2))%R by field.
    rewrite !sin_neg.
    do 2 f_equal. ring.
  - erewrite haversine_real; [|apply haversine_a_real|apply hav_bounds].
    replace ((lat1 * (PI / 180) - lat1 * (PI / 180)) / 2)%R with 0%R by field.
    replace ((lon1 * (PI / 180) - lon1 * (PI / 180)) / 2)%R with 0%R by field.
    rewrite sin_0.
    replace (0 ^ 2 + _ * _ * 0 ^ 2)%R with 0%R by ring.
    rewrite sqrt_0, asin_0. f_equal. ring.
Qed.

(** C8: the distance does not depend on the order of the two points, and the
    distance of a point to itself is 0: in exact arithmetic for all
    coordinates, and on binary64 for every C library whose sine is odd and
    whose square is even (the order), and whose sine, arcsine and square map
    0 to 0 and whose cosine is finite (the distance to itself). *)
Theorem haversine_symmetric :
  (∀ lat1 lon1 lat2 lon2 : R,
     haversine real_math lat1 lon1 lat2 lon2 = haversine real_math lat2 lon2 lat1 lon1
     ∧ haversine real_math lat1 lon1 lat1 lon1 = Some 0%R)
  ∧ (∀ L : libm,
       (∀ x, c_sin L (- x)%float = (- c_sin L x)%float) →
       (∀ x, c_pow L (- x)%float 2%float = c_pow L x 2%float) →
       ∀ lat1 lon1 lat2 lon2 : float,
         haversine (float_math L) lat1 lon1 lat2 lon2
         = haversine (float_math L) lat2 lon2 lat1 lon1)
  ∧ (∀ (L : libm) (lat lon : float),
       c_sin L 0 = 0%float → c_asin L 0 = 0%float → c_pow L 0 2 = 0%float →
       is_finite (lat * degToRad) = true → is_finite (lon * degToRad) = true →
       is_finite (c_cos L (lat * degToRad)) = true →
       is_finite (c_cos L (lat * degToRad) * c_cos L (lat * degToRad)) = true →
       haversine (float_math L) lat lon lat lon = Some 0%float).
Proof.
  split; [exact haversine_symmetric_real|].
  split; [exact haversine_symmetric_binary64|exact haversine_self_binary64].
Qed.


(** ** The range of a cell and its prefix *)

Lemma ascii_compare_refl (c : ascii) : Ascii.compare c c = Eq.
Proof. apply N.compare_refl. Qed.

Lemma base32_below_tilde (c : ascii) :
  mem_ascii c base32 = true → Ascii.compare c "~" = Lt.
Proof.
  unfold base32. simpl. intros H.
  repeat (apply orb_true_iff in H as [H|H]; [apply Ascii.eqb_eq in H; by subst|]).
  done.
Qed.

(** A string inside the closed range of a cell starts with the cell. *)
Lemma range_prefix (cell g : string) :
  String.leb cell g = true → String.leb g (cell +:+ "~") = true →
  String.prefix cell g = true.
Proof.
  revert g. induction cell as [|c cell IH]; intros g.
  - by destruct g.
  - destruct g as [|d g]; [done|].
    unfold String.leb. simpl.
    rewrite (Ascii.compare_antisym d c).
    destruct (Ascii.compare c d) eqn:Hcd; simpl; try done.
    apply Ascii.compare_eq_iff in Hcd as <-.
    intros H1 H2. destruct (ascii_dec c c); [|done]. by apply IH.
Qed.

(** A base-32 string that starts with the cell lies in its range, and
    strictly below the upper end. *)
Lemma prefix_range (cell g : string) :
  is_base32 g = true → String.prefix cell g = true →
  String.leb cell g = true ∧ String.ltb g (cell +:+ "~") = true.
Proof.
  revert g. induction cell as [|c cell IH]; intros g Hg.
  - intros _. destruct g as [|d g]; [done|].
    simpl in Hg. apply andb_true_iff in Hg as [Hd _].
    unfold String.leb, String.ltb. simpl. by rewrite (base32_below_tilde _ Hd).
  - destruct g as [|d g]; [done|]. simpl.
    simpl in Hg. apply andb_true_iff in Hg as [_ Hg].
    destruct (ascii_dec c d) as [<-|]; [|done].
    intros Hp. destruct (IH g Hg Hp) as [H1 H2].
    unfold String.leb, String.ltb in *. simpl. by rewrite ascii_compare_refl.
Qed.

Lemma string_ltb_leb (s t : string) : String.ltb s t = true → String.leb s t = true.
Proof. unfold String.ltb, String.leb. by destruct (String.compare s t). Qed.

(** On base-32 strings the closed range of the query, the half-open range
    and the prefix test agree. *)
Lemma cell_range_base32 (cell g : string) :
  is_base32 g = true →
  (String.leb cell g && String.leb g (cell +:+ "~") = true
     ↔ String.leb cell g = true ∧ String.ltb g (cell +:+ "~") = true)
  ∧ (String.leb cell g && String.leb g (cell +:+ "~") = true
     ↔ String.prefix cell g = true).
Proof.
  intros Hg.
  assert (Hp : String.leb cell g && String.leb g (cell +:+ "~") = true
               ↔ String.prefix cell g = true).
  { rewrite andb_true_iff. split.
    - intros [H1 H2]. by apply range_prefix.
    - intros H. destruct (prefix_range _ _ Hg H) as [H1 H2].
      split; [done|by apply string_ltb_leb]. }
  split; [|done]. rewrite Hp. split.
  - by apply prefix_range.
  - intros [H1 H2]. apply range_prefix; [done|by apply string_ltb_leb].
Qed.

(** ** The claims about the search *)

Section SearchClaims.
Context {F : Type} (M : pymath F).
Context (pgh : pygeohash F) (quote : string → string).
Context (parse_float : string → option F).
Context (sp : spotipy) (fs_ok : fs_op → bool).

Local Abbreviation doc := (user_doc F).
Local Abbreviation store := (gmap string (user_doc F)).
Local Abbreviation search := (users_nearby M pgh quote parse_float sp fs_ok).

(** C1: every row of a search with centre [(clat, clon)] and radius
    [radius] lies at a distance [<= radius * 1.1] of the centre, and a stored
    user whose distance is not [<= radius * 1.1] has no row, wherever its
    geohash lies. *)
Theorem nearby_within_radius (db : store) (sid : string) (body : option (nearby_body F))
    (clat clon radius : F) :
  read_body M parse_float body = Some (clat, clon, radius) →
  let rows := rows_of (search db (Some sid) body).1 in
  Forall (λ r, ∃ distance,
            haversine M clat clon (row_latitude r) (row_longitude r) = Some distance
            ∧ f_leb M distance (f_mul M radius (f_lit M 11 1)) = true) rows
  ∧ ∀ id d lat lon distance,
      db !! id = Some d → latitude d = Some lat → longitude d = Some lon →
      haversine M clat clon lat lon = Some distance →
      f_leb M distance (f_mul M radius (f_lit M 11 1)) = false →
      Forall (λ r, row_id r ≠ id) rows.
Proof.
  intros Hbody rows.
  pose proof (users_nearby_rows M pgh quote parse_float sp fs_ok db sid body _ _ _ Hbody) as Hrows.
  fold rows in Hrows. split.
  - eapply Forall_impl; [exact Hrows|]. by intros r [[_ Hdist] _].
  - intros id d lat lon distance Hd Hlat Hlon Hdist Hfar.
    eapply Forall_impl; [exact Hrows|].
    intros r [[_ (dist' & Hdist' & Hnear)] (d' & Hd' & _ & Hlat' & Hlon')] <-.
    rewrite Hd in Hd'. injection Hd' as <-.
    rewrite Hlat in Hlat'. injection Hlat' as ->.
    rewrite Hlon in Hlon'. injection Hlon' as ->.
    congruence.
Qed.

(** C2: no row of an answer carries the id of the session that asked. *)
Theorem requester_excluded (db : store) (session_id : option string)
    (body : option (nearby_body F)) :
  Forall (λ r, session_id ≠ Some (row_id r)) (rows_of (search db session_id body).1).
Proof.
  destruct session_id as [sid|]; [|by apply Forall_nil].
  destruct (read_body M parse_float body) as [[[clat clon] radius]|] eqn:Hbody.
  - eapply Forall_impl; [by apply users_nearby_rows|].
    intros r [[Hid _] _] [= ->]. done.
  - unfold users_nearby. rewrite Hbody. destruct (truthy_str (Some sid)); by apply Forall_nil.
Qed.


Lemma live_row_playing (tok id : string) (lat lon : F) (r : row F) :
  live_row sp tok id lat lon = Some r →
  ∃ t, current_user_playing_track sp tok = Some (Some t) ∧ is_playing t = true.
Proof.
  unfold live_row.
  destruct (match current_user sp tok with Some _ => _ | None => _ end) as [real_name url].
  destruct (current_user_playing_track sp tok) as [[t|]|]; try done.
  destruct (is_playing t) eqn:Hplay; [|done]. eauto.
Qed.

(** C10: a candidate within the radius whose id contains ["fake_user"] gets
    the row built from its stored fields, whatever Spotify and Firestore
    would answer; any other candidate gets a row only when its token is
    found and Spotify reports a track that is playing. *)
Theorem fake_user_bypass (sid : string) (clat clon radius : F) (acc : list (row F))
    (db : store) (id : string) (d : doc) (lat lon distance : F) :
  id ≠ sid → latitude d = Some lat → longitude d = Some lon →
  haversine M clat clon lat lon = Some distance →
  f_leb M distance (f_mul M radius (f_lit M 11 1)) = true →
  (contains "fake_user" id = true →
     (∀ sp' fs_ok',
        visit_doc M pgh quote sp' fs_ok' sid clat clon radius acc db (id, d)
        = (Ok (acc ++ [fake_row quote id lat lon d]), db))
     ∧ row_track_name (fake_row quote id lat lon d) = default "Song" (track d)
     ∧ row_artist (fake_row quote id lat lon d) = default "Artist" (artist d)
     ∧ row_track_url (fake_row quote id lat lon d)
       = "https://open.spotify.com/search/"
         +:+ quote (default "Song" (track d) +:+ " " +:+ default "Artist" (artist d))
     ∧ row_artist_url (fake_row quote id lat lon d)
       = "https://open.spotify.com/search/"
         +:+ quote (default "Artist" (artist d)) +:+ "&type=artist")
  ∧ (contains "fake_user" id = false →
     ∀ acc' db',
       visit_doc M pgh quote sp fs_ok sid clat clon radius acc db (id, d) = (Ok acc', db') →
       acc' = acc
       ∨ ∃ tok t r,
           get_token_info M pgh sp fs_ok db id = (Ok (Some tok), db')
           ∧ current_user_playing_track sp tok = Some (Some t)
           ∧ is_playing t = true
           ∧ live_row sp tok id lat lon = Some r
           ∧ acc' = acc ++ [r]).
Proof.
  intros Hid Hlat Hlon Hdist Hnear.
  apply String.eqb_neq in Hid.
  split; intros Hfake.
  - split; [|done]. intros sp' fs_ok'.
    unfold visit_doc. by rewrite Hid, Hlat, Hlon, Hdist, Hnear, Hfake.
  - intros acc' db'. unfold visit_doc. rewrite Hid, Hlat, Hlon, Hdist, Hnear, Hfake.
    destruct (get_token_info M pgh sp fs_ok db id) as [[[tok|]|e] db1]; try done.
    + destruct (truthy_str (Some tok)); [|intros [= <- <-]; by left].
      destruct (live_row sp tok id lat lon) as [r|] eqn:Hr; [|intros [= <- <-]; by left].
      intros [= <- <-]. right.
      destruct (live_row_playing _ _ _ _ _ Hr) as (t & Ht & Hplay).
      by exists tok, t, r.
    + intros [= <- <-]. by left.
Qed.


Section NoFault.
(** No Firestore read fails and the expiry check of spotipy answers. *)
Hypothesis stream_up : ∀ cell, fs_ok (FsStream cell) = true.
Hypothesis get_up : ∀ id, fs_ok (FsGet id) = true.
Hypothesis expiry_answers : ∀ ti, is_Some (is_token_expired sp ti).





End NoFault.


End SearchClaims.

(** ** The stored geohash *)

Section StoredGeohash.
Context {F : Type} (M : pymath F).
Context (pgh : pygeohash F) (parse_float : string → option F) (fs_ok : fs_op → bool).

Local Abbreviation doc := (user_doc F).
Local Abbreviation store := (gmap string (user_doc F)).

Lemma precision_of_radius_range (radius_km : F) :
  2 ≤ precision_of_radius M radius_km ≤ 6.
Proof.
  unfold precision_of_radius.
  repeat (destruct (f_leb M radius_km _)); lia.
Qed.

Lemma save_user_data_location db id ti location sharing db' j d' :
  save_user_data pgh fs_ok db id ti location sharing = Ok db' →
  db' !! j = Some d' → location_at_7 pgh (db !! j) d'.
Proof.
  unfold save_user_data. destruct (fs_ok (FsSet id)); [|done].
  intros [= <-]. destruct (decide (id = j)) as [<-|Hne].
  - rewrite lookup_insert_eq. intros [= <-].
    destruct location as [[[lat|] [lon|]]|]; simpl; (by right) || (left; eauto).
  - rewrite lookup_insert_ne by done. intros ->. by right.
Qed.

Lemma update_location_location db session form r db' j d' :
  update_location pgh parse_float fs_ok db session form = (r, db') →
  db' !! j = Some d' → location_at_7 pgh (db !! j) d'.
Proof.
  assert (Hsame : db !! j = Some d' → location_at_7 pgh (db !! j) d').
  { intros ->. by right. }
  unfold update_location.
  destruct session as [sid|]; [|by intros [= _ <-]].
  destruct (truthy_str (Some sid)); [|by intros [= _ <-]].
  match goal with |- context [match ?loc with Ok _ => _ | Raise _ => _ end] =>
    destruct loc as [location|e] eqn:Hloc end; [|by intros [= _ <-]].
  destruct (fs_ok (FsGet sid)); [|by intros [= _ <-]].
  destruct (db !! sid) as [old|] eqn:Hold; [|by intros [= _ <-]].
  destruct (fs_ok (FsUpdate sid)); [|by intros [= _ <-]].
  intros [= _ <-]. destruct (decide (sid = j)) as [<-|Hne].
  - rewrite lookup_insert_eq. intros [= <-]. rewrite Hold.
    destruct location as [[lat lon]|]; simpl; (by right) || (left; eauto).
  - by rewrite lookup_insert_ne.
Qed.

(** C9: both writers store the geohash of the position at length 7 whenever
    they store a position, and otherwise leave position and geohash alone;
    the length of a search cell is between 2 and 6, so never more than 7;
    and with nested base-32 codes a stored document that shares its location
    is matched by the query of the cell of its own position, whatever the
    radius. *)
Theorem stored_geohash_precision :
  (∀ db id ti location sharing db' j d',
     save_user_data pgh fs_ok db id ti location sharing = Ok db' →
     db' !! j = Some d' → location_at_7 pgh (db !! j) d')
  ∧ (∀ db id ti lat lon sharing db',
       save_user_data pgh fs_ok db id ti (Some (Some lat, Some lon)) sharing = Ok db' →
       ∃ d', db' !! id = Some d' ∧ latitude d' = Some lat ∧ longitude d' = Some lon
             ∧ geohash d' = Some (pgh_encode pgh lat lon 7))
  ∧ (∀ db session form r db' j d',
       update_location pgh parse_float fs_ok db session form = (r, db') →
       db' !! j = Some d' → location_at_7 pgh (db !! j) d')
  ∧ (∀ db sid slat slon sharing lat lon db',
       truthy_str (Some slat) = true → truthy_str (Some slon) = true →
       parse_float slat = Some lat → parse_float slon = Some lon →
       update_location pgh parse_float fs_ok db (Some sid)
         (LocationForm (Some slat) (Some slon) sharing) = (Status200, db') →
       ∃ d', db' !! sid = Some d' ∧ latitude d' = Some lat ∧ longitude d' = Some lon
             ∧ geohash d' = Some (pgh_encode pgh lat lon 7))
  ∧ (∀ radius_km, 2 ≤ precision_of_radius M radius_km ≤ 6
                  ∧ precision_of_radius M radius_km ≤ 7)
  ∧ ((∀ lat lon p, p ≤ 7 →
        String.prefix (pgh_encode pgh lat lon p) (pgh_encode pgh lat lon 7) = true) →
     (∀ lat lon, is_base32 (pgh_encode pgh lat lon 7) = true) →
     ∀ (d : doc) lat lon radius_km,
       geohash d = Some (pgh_encode pgh lat lon 7) →
       location_sharing_enabled d = Some true →
       in_cell (pgh_encode pgh lat lon (precision_of_radius M radius_km)) d = true).
Proof.
  split; [exact save_user_data_location|].
  split.
  { intros db id ti lat lon sharing db'. unfold save_user_data.
    destruct (fs_ok (FsSet id)); [|done]. intros [= <-].
    eexists. rewrite lookup_insert_eq. by repeat split. }
  split; [exact update_location_location|].
  split.
  { intros db sid slat slon sharing lat lon db' Hslat Hslon Hlat Hlon.
    unfold update_location. cbn [form_lat form_lon form_sharing].
    rewrite Hslat, Hslon, Hlat, Hlon. cbn [andb].
    destruct (truthy_str (Some sid)); [|done].
    destruct (fs_ok (FsGet sid)); [|done].
    destruct (db !! sid) as [old|]; [|done].
    destruct (fs_ok (FsUpdate sid)); [|done].
    intros [= <-]. eexists. rewrite lookup_insert_eq. by repeat split. }
  split.
  { intros r. pose proof (precision_of_radius_range r). lia. }
  intros Hnested Hb32 d lat lon r Hg Hs.
  pose proof (precision_of_radius_range r) as Hp.
  unfold in_cell. rewrite Hg, Hs. rewrite bool_decide_eq_true_2 by done.
  rewrite andb_true_r.
  apply (proj2 (cell_range_base32 _ _ (Hb32 lat lon))).
  apply Hnested. lia.
Qed.

End StoredGeohash.

(** ** The worked search *)

Example demo_search_rows : (demo_search always_up).1 = Json200 demo_rows.
Proof. vm_compute. reflexivity. Qed.

Example demo_distances :
  (haversine (float_math glibc_points) 48.8566 2.3522 48.88 2.36
   = Some 0x1.54f68b55ea1a7p+1)%float
  ∧ (haversine (float_math glibc_points) 48.8566 2.3522 48.8 2.3
     = Some 0x1.d73813e400bf3p+2)%float
  ∧ f_mul (float_math glibc_points) 5%float (f_lit (float_math glibc_points) 11 1)
    = 5.5%float.
Proof. repeat split; vm_compute; reflexivity. Qed.

(** On binary64, at the points of the example, the distance is the same in
    both directions and 0 from a point to itself. *)
Example demo_symmetric :
  (haversine (float_math glibc_points) 48.8566 2.3522 48.86 2.34
   = Some 0x1.f0475ba60603cp-1)%float
  ∧ (haversine (float_math glibc_points) 48.86 2.34 48.8566 2.3522
     = Some 0x1.f0475ba60603cp-1)%float
  ∧ (haversine (float_math glibc_points) 48.8566 2.3522 48.8566 2.3522 = Some 0)%float.
Proof. repeat split; vm_compute; reflexivity. Qed.




(** The search of the example satisfies C1: both rows are within 5.5 km, and
    dave, whose geohash lies in the scanned cell [u09ts], has none. *)
Lemma nearby_within_radius_witness :
  read_body (float_math glibc_points) no_parse demo_body = Some (48.8566, 2.3522, 5)%float
  ∧ Forall (λ r, ∃ distance,
              haversine (float_math glibc_points) 48.8566%float 2.3522%float
                (row_latitude r) (row_longitude r) = Some distance
              ∧ PrimFloat.leb distance (5 * f_lit (float_math glibc_points) 11 1) = true)
      (rows_of (demo_search always_up).1)
  ∧ Forall (λ r, row_id r ≠ "dave") (rows_of (demo_search always_up).1).
Proof.
  destruct (nearby_within_radius (float_math glibc_points) pgh_points urllib_quote no_parse
              demo_spotify always_up demo_db "alice" demo_body
              48.8566%float 2.3522%float 5%float eq_refl) as [Hnear Hfar].
  split; [reflexivity|]. split; [exact Hnear|].
  eapply (Hfar "dave" _ 48.8%float 2.3%float); [reflexivity..|].
  vm_compute. reflexivity.
Defined.


(** Where the closed range of the query and the half-open range part: the
    upper end itself, which is no base-32 string. *)
Example range_upper_end :
  String.leb "u09tvw~" ("u09tvw" +:+ "~") = true
  ∧ String.ltb "u09tvw~" ("u09tvw" +:+ "~") = false
  ∧ is_base32 "u09tvw~" = false.
Proof. repeat split; reflexivity. Qed.

(** The loop body on the demonstration user of the example. *)
Lemma fake_user_bypass_witness :
  contains "fake_user" "fake_user_7" = true
  ∧ ∀ sp' fs_ok',
      visit_doc (float_math glibc_points) pgh_points urllib_quote sp' fs_ok' "alice"
        48.8566%float 2.3522%float 5%float [] demo_db
        ("fake_user_7", demo_fake_user)
      = (Ok [Row "fake_user_7" 48.88%float 2.36%float "Get Lucky" "Daft Punk"
               "https://cdn-icons-png.flaticon.com/512/3209/3209995.png" "Anonymous"
               "https://open.spotify.com/"
               "https://open.spotify.com/search/Get%20Lucky%20Daft%20Punk"
               "https://open.spotify.com/search/Daft%20Punk&type=artist"], demo_db).
Proof.
  split; [reflexivity|].
  refine (proj1 (proj1 (fake_user_bypass (float_math glibc_points) pgh_points urllib_quote
            demo_spotify always_up "alice" 48.8566%float 2.3522%float 5%float [] demo_db
            "fake_user_7" demo_fake_user 48.88%float 2.36%float 0x1.54f68b55ea1a7p+1%float
            _ eq_refl eq_refl _ _) eq_refl)); [done|vm_compute; reflexivity..].
Defined.




(** The same for every C library that rounds [sin] and [cos] correctly at
    the four arguments and squares exactly like the multiplication. *)
Lemma haversine_unclamped_any_libm (L : libm) :
  c_sin L 0x1.921fb54442d18p-1 = 0x1.6a09e667f3bccp-1%float →
  c_sin L 0x1.921fb54442d18p+0 = 1%float →
  c_cos L 0x1.921fb54442d18p-1 = 0x1.6a09e667f3bcdp-1%float →
  c_cos L 0x1.2d97c7f3321d2p+1 = (-0x1.6a09e667f3bccp-1)%float →
  (∀ x, c_pow L x 2 = PrimFloat.mul x x) →
  (haversine (float_math L) 45 0 135 180 = None)%float.
Proof.
  intros Hs1 Hs2 Hc1 Hc2 Hpow.
  unfold haversine, haversine_a. simpl.
  change (135 * degToRad - 45 * degToRad)%float with 0x1.921fb54442d18p+0%float.
  change (0x1.921fb54442d18p+0 / (_ / _))%float with 0x1.921fb54442d18p-1%float.
  change (45 * degToRad)%float with 0x1.921fb54442d18p-1%float.
  change (135 * degToRad)%float with 0x1.2d97c7f3321d2p+1%float.
  change ((180 * degToRad - 0 * degToRad) / (_ / _))%float with 0x1.921fb54442d18p+0%float.
  unfold math_1. rewrite Hs1, Hs2, Hc1, Hc2. cbn. rewrite !Hpow.
  vm_compute. reflexivity.
Qed.

(** The values the specification lists for the selector, and the cells of
    the example. *)
Example precision_of_radius_table :
  precision_of_radius (float_math glibc_points) 2.5%float = 6
  ∧ precision_of_radius (float_math glibc_points) 20%float = 5
  ∧ precision_of_radius (float_math glibc_points) 80%float = 4
  ∧ precision_of_radius (float_math glibc_points) 600%float = 3
  ∧ precision_of_radius (float_math glibc_points) 1000%float = 2
  ∧ precision_of_radius (float_math glibc_points) (-1)%float = 6
  ∧ precision_of_radius (float_math glibc_points) PrimFloat.nan = 2.
Proof. repeat split; vm_compute; reflexivity. Qed.

Example demo_neighbors : length (get_all_neighbors pgh_points "u09tv") = 9.
Proof. vm_compute. reflexivity. Qed.

(** The selector at 1 km and 3 km. *)
Lemma precision_of_radius_thresholds_witness :
  PrimFloat.ltb 2.5 3 = true ∧ PrimFloat.leb 3 20 = true ∧ PrimFloat.leb 1 3 = true
  ∧ precision_of_radius (float_math glibc_points) 3%float = 5
  ∧ precision_of_radius (float_math glibc_points) 3%float
    ≤ precision_of_radius (float_math glibc_points) 1%float.
Proof.
  destruct (precision_of_radius_thresholds glibc_points) as (_ & _ & H5 & _ & _ & _ & Hmono).
  split; [reflexivity|]. split; [reflexivity|]. split; [reflexivity|].
  split; [exact (H5 3%float eq_refl eq_refl)|exact (Hmono 1%float 3%float eq_refl)].
Defined.

(** bob posts the position 48.86 N, 2.34 E: the document holds the geohash of
    length 7 of that position. *)
Lemma stored_geohash_precision_witness :
  truthy_str (Some "48.86") = true ∧ truthy_str (Some "2.34") = true
  ∧ demo_parse "48.86" = Some 48.86%float ∧ demo_parse "2.34" = Some 2.34%float
  ∧ (update_location pgh_points demo_parse always_up demo_db (Some "bob")
       (LocationForm (Some "48.86") (Some "2.34") (Some "on"))).1 = Status200
  ∧ ∃ d', (update_location pgh_points demo_parse always_up demo_db (Some "bob")
             (LocationForm (Some "48.86") (Some "2.34") (Some "on"))).2 !! "bob" = Some d'
          ∧ latitude d' = Some 48.86%float ∧ longitude d' = Some 2.34%float
          ∧ geohash d' = Some "u09tvnx".
Proof.
  destruct (stored_geohash_precision (float_math glibc_points) pgh_points demo_parse always_up)
    as (_ & _ & _ & Hupdate & _).
  split; [reflexivity|]. split; [reflexivity|]. split; [reflexivity|]. split; [reflexivity|].
  split; [vm_compute; reflexivity|].
  apply (Hupdate demo_db "bob" "48.86" "2.34" (Some "on") 48.86%float 2.34%float);
    reflexivity.
Defined.

(** The distance to itself at the centre of the example, with glibc's values,
    and the order of the points with the small-angle library. *)
Lemma haversine_symmetric_witness :
  (haversine (float_math glibc_points) 48.8566 2.3522 48.8566 2.3522 = Some 0)%float
  ∧ ∀ lat1 lon1 lat2 lon2 : float,
      haversine (float_math small_angle) lat1 lon1 lat2 lon2
      = haversine (float_math small_angle) lat2 lon2 lat1 lon1.
Proof.
  destruct haversine_symmetric as (_ & Hswap & Hself). split.
  - apply Hself; reflexivity.
  - apply Hswap; [done|]. intros x. apply float_mul_opp_opp.
Defined.

(** * The rest of the module *)

(** ** More on the distance in exact arithmetic *)

Lemma asin_nonneg (x : R) : (0 <= x <= 1)%R → (0 <= asin x)%R.
Proof.
  intros Hx. destruct (Rle_dec 0 (asin x)) as [|Hneg]; [done|].
  pose proof (asin_bound x) as [Hlo _]. pose proof PI_RGT_0 as Hpi.
  assert (Hsin : (0 < sin (- asin x))%R) by (apply sin_gt_0; lra).
  rewrite sin_neg, sin_asin in Hsin by lra. lra.
Qed.

Lemma haversine_real_bounds (lat1 lon1 lat2 lon2 d : R) :
  haversine real_math lat1 lon1 lat2 lon2 = Some d → (0 <= d <= PI * 6371)%R.
Proof.
  erewrite haversine_real; [|apply haversine_a_real|apply hav_bounds].
  intros [= <-].
  set (a := (_ + _)%R).
  assert (Ha : (0 <= a <= 1)%R) by apply hav_bounds.
  assert (Hs : (0 <= sqrt a <= 1)%R).
  { split; [apply sqrt_pos|]. rewrite <- sqrt_1. apply sqrt_le_1_alt. lra. }
  pose proof (asin_nonneg _ Hs). pose proof (asin_bound (sqrt a)) as [_ Hhi]. lra.
Qed.

(** X1: in exact arithmetic the distance is defined for all coordinates, is
    never negative and never more than half the circumference of the
    sphere, [PI * 6371]. *)
Theorem haversine_range (lat1 lon1 lat2 lon2 : R) :
  ∃ d, haversine real_math lat1 lon1 lat2 lon2 = Some d ∧ (0 <= d <= PI * 6371)%R.
Proof.
  eexists. split.
  { apply haversine_real; [apply haversine_a_real|apply hav_bounds]. }
  eapply haversine_real_bounds.
  apply haversine_real; [apply haversine_a_real|apply hav_bounds].
Qed.

Lemma asin_abs_sin (t : R) : (Rabs t <= PI / 2)%R → asin (sqrt (sin t ^ 2)) = Rabs t.
Proof.
  intros Ht. pose proof PI_RGT_0 as Hpi.
  replace (sin t ^ 2)%R with (Rsqr (sin t)) by (unfold Rsqr; ring).
  rewrite sqrt_Rsqr_abs.
  assert (Hsin : Rabs (sin t) = sin (Rabs t)).
  { unfold Rabs at 2. destruct (Rcase_abs t) as [Hneg|Hpos].
    - rewrite sin_neg. rewrite Rabs_left; [done|].
      rewrite Rabs_left in Ht by done.
      assert (0 < sin (- t))%R by (apply sin_gt_0; lra). rewrite sin_neg in *. lra.
    - rewrite Rabs_right in Ht by done. apply Rabs_right. apply Rle_ge, sin_ge_0; lra. }
  rewrite Hsin. apply asin_sin. pose proof (Rabs_pos t). lra.
Qed.

(** X2: along a meridian, and along the equator, the distance is the arc:
    6371 km times the difference of the angles in radians. *)
Theorem haversine_arc (lat1 lat2 lon lon1 lon2 : R) :
  (Rabs (lat2 - lat1) <= 180)%R → (Rabs (lon2 - lon1) <= 180)%R →
  haversine real_math lat1 lon lat2 lon = Some (6371 * (Rabs (lat2 - lat1) * (PI / 180)))%R
  ∧ haversine real_math 0%R lon1 0%R lon2
    = Some (6371 * (Rabs (lon2 - lon1) * (PI / 180)))%R.
Proof.
  intros Hlat Hlon. pose proof PI_RGT_0 as Hpi.
  assert (Habs : ∀ x, (Rabs x <= 180)%R →
            (Rabs (x * (PI / 180) / 2) = Rabs x * (PI / 180) / 2
             ∧ Rabs (x * (PI / 180) / 2) <= PI / 2)%R).
  { intros x Hx. replace (x * (PI / 180) / 2)%R with (x * (PI / 360))%R by field.
    rewrite Rabs_mult, (Rabs_right (PI / 360)) by lra. split; [field|].
    pose proof (Rabs_pos x). nra. }
  split.
  - erewrite haversine_real; [|apply haversine_a_real|apply hav_bounds].
    replace ((lon * (PI / 180) - lon * (PI / 180)) / 2)%R with 0%R by field.
    rewrite sin_0.
    replace (lat2 * (PI / 180) - lat1 * (PI / 180))%R with ((lat2 - lat1) * (PI / 180))%R by ring.
    replace (_ + _ * 0 ^ 2)%R with (sin ((lat2 - lat1) * (PI / 180) / 2) ^ 2)%R by ring.
    destruct (Habs _ Hlat) as [Heq Hle].
    rewrite (asin_abs_sin _ Hle), Heq. f_equal. field.
  - erewrite haversine_real; [|apply haversine_a_real|apply hav_bounds].
    replace ((0 * (PI / 180) - 0 * (PI / 180)) / 2)%R with 0%R by field.
    replace (0 * (PI / 180))%R with 0%R by ring.
    rewrite sin_0, cos_0.
    replace (lon2 * (PI / 180) - lon1 * (PI / 180))%R with ((lon2 - lon1) * (PI / 180))%R by ring.
    replace (0 ^ 2 + 1 * 1 * _)%R with (sin ((lon2 - lon1) * (PI / 180) / 2) ^ 2)%R by ring.
    destruct (Habs _ Hlon) as [Heq Hle].
    rewrite (asin_abs_sin _ Hle), Heq. f_equal. field.
Qed.

(** Two terms and three terms of Machin's series for [PI / 4]. *)
Lemma PI_bounds : (3.1415 < PI < 3.1421)%R.
Proof.
  pose proof (PI_2_3_7_ineq 1) as [Hlo Hhi].
  unfold sum_f_R0, tg_alt, PI_2_3_7_tg, Ratan_seq in Hlo, Hhi.
  simpl in Hlo, Hhi. lra.
Qed.

(** ** The cells of a search *)


(** Two prefixes of one string that have the same length are equal. *)
Lemma prefix_same_length (c1 c2 g : string) :
  String.prefix c1 g = true → String.prefix c2 g = true →
  String.length c1 = String.length c2 → c1 = c2.
Proof.
  revert c2 g. induction c1 as [|a c1 IH]; intros [|b c2] [|x g]; simpl; try done.
  destruct (ascii_dec a x) as [->|]; [|done].
  destruct (ascii_dec b x) as [->|]; [|done].
  intros H1 H2 [= Hlen]. f_equal. by eapply IH.
Qed.

Lemma in_cell_stored {F : Type} (db : gmap string (user_doc F)) (cell id : string)
    (d : user_doc F) :
  db !! id = Some d → in_cell cell d = true → stored_in_cell db cell id.
Proof.
  intros Hd Hin. unfold in_cell in Hin. apply andb_true_iff in Hin as [Hin _].
  destruct (geohash d) as [g|] eqn:Hg; [|done].
  apply andb_true_iff in Hin as [H1 H2].
  exists g. unfold geohash_of. rewrite Hd. simpl. split; [done|by apply range_prefix].
Qed.

(** X4: the queries of two different cells of the same length match no
    common document, whatever geohash it holds. *)
Theorem cells_disjoint {F : Type} (c1 c2 : string) (d : user_doc F) :
  String.length c1 = String.length c2 → c1 ≠ c2 →
  in_cell c1 d = true → in_cell c2 d = false.
Proof.
  intros Hlen Hne H1. destruct (in_cell c2 d) eqn:H2; [|done]. exfalso. apply Hne.
  pose proof (in_cell_stored {[ "" := d ]} c1 "" d (lookup_singleton_eq _ _) H1)
    as (g1 & Hg1 & Hp1).
  pose proof (in_cell_stored {[ "" := d ]} c2 "" d (lookup_singleton_eq _ _) H2)
    as (g2 & Hg2 & Hp2).
  rewrite Hg1 in Hg2. injection Hg2 as <-. by eapply prefix_same_length.
Qed.

(** ** Tokens *)

Section StoreFacts.
Context {F : Type} (M : pymath F).
Context (pgh : pygeohash F) (sp : spotipy) (fs_ok : fs_op → bool).

Local Abbreviation doc := (user_doc F).
Local Abbreviation store := (gmap string (user_doc F)).

Lemma same_profile_refl (d : doc) : same_profile d d.
Proof. by repeat split. Qed.

Lemma same_profile_trans (d1 d2 d3 : doc) :
  same_profile d1 d2 → same_profile d2 d3 → same_profile d1 d3.
Proof.
  unfold same_profile.
  intros (-> & -> & -> & -> & -> & -> & ->) (-> & -> & -> & -> & -> & -> & ->). done.
Qed.

Lemma rewrites_refl (T : string → Prop) (db : store) : rewrites T db db.
Proof.
  intros j. split; [done|]. destruct (db !! j); [apply same_profile_refl|done].
Qed.

Lemma rewrites_trans (T : string → Prop) (db1 db2 db3 : store) :
  rewrites T db1 db2 → rewrites T db2 db3 → rewrites T db1 db3.
Proof.
  intros H12 H23 j. destruct (H12 j) as [Hf12 Hp12], (H23 j) as [Hf23 Hp23]. split.
  - intros Hj. by rewrite Hf23, Hf12.
  - destruct (db1 !! j), (db2 !! j), (db3 !! j); try done.
    by eapply same_profile_trans.
Qed.

Lemma rewrites_weaken (T T' : string → Prop) (db db' : store) :
  (∀ j, T j → T' j) → rewrites T db db' → rewrites T' db db'.
Proof.
  intros HT H j. destruct (H j) as [Hf Hp]. split; [|done].
  intros Hj. apply Hf. intros HTj. by apply Hj, HT.
Qed.

Lemma rewrites_dom (T : string → Prop) (db db' : store) :
  rewrites T db db' → dom db' = dom db.
Proof.
  intros H. apply set_eq. intros j. rewrite !elem_of_dom.
  destruct (H j) as [_ Hp]. by destruct (db !! j), (db' !! j).
Qed.

Lemma rewrites_lookup (T : string → Prop) (db db' : store) (j : string) (d' : doc) :
  rewrites T db db' → db' !! j = Some d' → ∃ d, db !! j = Some d ∧ same_profile d d'.
Proof.
  intros H Hd'. destruct (H j) as [_ Hp]. rewrite Hd' in Hp.
  destruct (db !! j) as [d|]; [eauto|done].
Qed.

Lemma same_cells_trans (db1 db2 db3 : store) :
  same_cells db1 db2 → same_cells db2 db3 → same_cells db1 db3.
Proof. intros H12 H23 id. by rewrite H23, H12. Qed.

(** The document [save_user_data] writes during a refresh. *)
Lemma refresh_same_profile (db : store) (id : string) (data : doc) (new : token_info)
    (db' : store) :
  db !! id = Some data →
  save_user_data pgh fs_ok db id new
    (if truthy_float M (latitude data) then Some (latitude data, longitude data) else None)
    (default false (location_sharing_enabled data)) = Ok db' →
  ∃ d', db' = <[id := d']> db
        ∧ same_profile data d'
        ∧ tokens_of d' = new
        ∧ (geohash_fixed pgh data → geohash_fixed pgh d' ∧ geohash d' = geohash data).
Proof.
  intros Hdata. unfold save_user_data. rewrite Hdata. simpl.
  destruct (fs_ok (FsSet id)); [|done]. intros [= <-].
  eexists. split; [done|].
  unfold truthy_float, same_profile, geohash_fixed, tokens_of.
  destruct new as [a r e].
  destruct data as [? ? ? sharing [lat|] [lon|] g ? ? ? ?]; simpl;
    try destruct (f_truthy M lat); simpl;
    (split; [repeat split; try done; destruct sharing as [[|]|]; simpl; congruence|]);
    repeat split; try done; try (intros lat' lon' [= <-] [= <-]; auto);
    symmetry; auto.
Qed.

(** X5: [get_token_info] leaves every other document alone; it changes the
    store only when the stored token has expired and is refreshed, and then
    the document of the user holds the new tokens, keeps its profile, and
    the access token returned is the new one. *)
Theorem get_token_info_refresh (db : store) (id : string)
    (r : result (option string)) (db' : store) :
  get_token_info M pgh sp fs_ok db id = (r, db') →
  (∀ j, j ≠ id → db' !! j = db !! j)
  ∧ (db' = db
     ∨ ∃ data new d',
         db !! id = Some data
         ∧ is_token_expired sp (tokens_of data) = Some true
         ∧ refresh_access_token sp (spotify_refresh_token data) = Some new
         ∧ r = Ok (access_token new)
         ∧ db' !! id = Some d'
         ∧ tokens_of d' = new
         ∧ same_profile data d').
Proof.
  unfold get_token_info.
  destruct (fs_ok (FsGet id)); [|intros [= _ <-]; auto].
  destruct (db !! id) as [data|] eqn:Hdata; [|intros [= _ <-]; auto].
  destruct (is_token_expired sp _) as [[|]|] eqn:Hexp; try (intros [= _ <-]; by auto).
  simpl. destruct (refresh_access_token sp _) as [new|] eqn:Hnew; [|intros [= _ <-]; auto].
  destruct (save_user_data _ _ _ _ _ _ _) as [db1|e] eqn:Hsave; [|intros [= _ <-]; auto].
  intros [= <- <-].
  destruct (refresh_same_profile _ _ _ _ _ Hdata Hsave) as (d' & -> & Hp & Htok & _).
  split.
  - intros j Hj. by rewrite lookup_insert_ne.
  - right. exists data, new, d'. rewrite lookup_insert_eq. eauto 10.
Qed.

(** The same, as the search uses it. *)
Lemma get_token_info_step (db : store) (id : string)
    (r : result (option string)) (db' : store) :
  get_token_info M pgh sp fs_ok db id = (r, db') →
  rewrites (λ j, j = id) db db'
  ∧ (store_consistent pgh db → store_consistent pgh db' ∧ same_cells db db')
  ∧ ((∀ d, db !! id = Some d → is_token_expired sp (tokens_of d) ≠ Some true) → db' = db).
Proof.
  assert (Hsame : rewrites (λ j, j = id) db db
            ∧ (store_consistent pgh db → store_consistent pgh db ∧ same_cells db db)
            ∧ ((∀ d, db !! id = Some d → is_token_expired sp (tokens_of d) ≠ Some true) →
               db = db)).
  { split; [apply rewrites_refl|]. by split. }
  unfold get_token_info.
  destruct (fs_ok (FsGet id)); [|by intros [= _ <-]].
  destruct (db !! id) as [data|] eqn:Hdata; [|by intros [= _ <-]].
  destruct (is_token_expired sp _) as [[|]|] eqn:Hexp; try (by intros [= _ <-]).
  simpl. destruct (refresh_access_token sp _) as [new|] eqn:Hnew; [|by intros [= _ <-]].
  destruct (save_user_data _ _ _ _ _ _ _) as [db1|e] eqn:Hsave; [|by intros [= _ <-]].
  intros [= _ <-]. clear Hsame.
  destruct (refresh_same_profile _ _ _ _ _ Hdata Hsave) as (d' & -> & Hp & _ & Hfix).
  split; [|split].
  - intros j. destruct (decide (id = j)) as [<-|Hne].
    + rewrite lookup_insert_eq, Hdata. by split.
    + rewrite lookup_insert_ne by done. split; [done|].
      destruct (db !! j); [apply same_profile_refl|done].
  - intros Hcons. destruct (Hfix (Hcons _ _ Hdata)) as [Hfix' Hgeo]. split.
    + intros j d. destruct (decide (id = j)) as [<-|Hne].
      * rewrite lookup_insert_eq. by intros [= <-].
      * rewrite lookup_insert_ne by done. apply Hcons.
    + intros j. unfold geohash_of. destruct (decide (id = j)) as [<-|Hne].
      * rewrite lookup_insert_eq, Hdata. simpl. done.
      * by rewrite lookup_insert_ne.
  - intros Hfresh. by destruct (Hfresh data eq_refl).
Qed.

(** X6: what is saved for a user is what [get_token_info] reads back: while
    the saved token is not expired, it answers the saved access token and
    leaves the store alone. *)
Theorem save_then_get_token (db : store) (id : string) (ti : token_info)
    (location : option (option F * option F)) (sharing : bool) (db' : store) :
  save_user_data pgh fs_ok db id ti location sharing = Ok db' →
  fs_ok (FsGet id) = true →
  is_token_expired sp ti = Some false →
  get_token_info M pgh sp fs_ok db' id = (Ok (access_token ti), db').
Proof.
  unfold save_user_data. destruct (fs_ok (FsSet id)); [|done].
  intros [= <-] Hget Hfresh. unfold get_token_info.
  rewrite Hget, lookup_insert_eq.
  destruct ti as [a r e].
  by destruct location as [[[lat|] [lon|]]|]; simpl in *; rewrite Hfresh.
Qed.
End StoreFacts.

(** ** What a search does to the store *)

Section SearchStore.
Context {F : Type} (M : pymath F).
Context (pgh : pygeohash F) (quote : string → string).
Context (parse_float : string → option F).
Context (sp : spotipy) (fs_ok : fs_op → bool).

Local Abbreviation doc := (user_doc F).
Local Abbreviation store := (gmap string (user_doc F)).
Local Abbreviation search := (users_nearby M pgh quote parse_float sp fs_ok).

Lemma search_step_refl (sid : string) (db : store) : search_step pgh sid db db.
Proof. split; [apply rewrites_refl|done]. Qed.

Lemma search_step_trans (sid : string) (db1 db2 db3 : store) :
  search_step pgh sid db1 db2 → search_step pgh sid db2 db3 → search_step pgh sid db1 db3.
Proof.
  intros [Hrw12 Hc12] [Hrw23 Hc23]. split; [by eapply rewrites_trans|].
  intros Hc1. destruct (Hc12 Hc1) as [Hc2 Hs12]. destruct (Hc23 Hc2) as [Hc3 Hs23].
  split; [done|by eapply same_cells_trans].
Qed.

Lemma visit_doc_search_step sid clat clon radius acc db id d r db' :
  visit_doc M pgh quote sp fs_ok sid clat clon radius acc db (id, d) = (r, db') →
  search_step pgh sid db db' ∧ (tokens_fresh sp db → db' = db).
Proof.
  assert (Hsame : search_step pgh sid db db ∧ (tokens_fresh sp db → db = db)).
  { split; [apply search_step_refl|done]. }
  unfold visit_doc.
  destruct (String.eqb id sid) eqn:Hid; [by intros [= _ <-]|].
  apply String.eqb_neq in Hid.
  destruct (latitude d) as [lat|]; [|by intros [= _ <-]].
  destruct (longitude d) as [lon|]; [|by intros [= _ <-]].
  destruct (haversine M clat clon lat lon) as [distance|]; [|by intros [= _ <-]].
  destruct (f_leb M distance _); [|by intros [= _ <-]].
  destruct (contains "fake_user" id) eqn:Hfake; [by intros [= _ <-]|].
  destruct (get_token_info M pgh sp fs_ok db id) as [tok db1] eqn:Htok.
  apply get_token_info_step in Htok as (Hrw & Hcons & Hfresh).
  assert (Hstep : search_step pgh sid db db1 ∧ (tokens_fresh sp db → db1 = db)).
  { split; [split; [|done]|].
    - eapply rewrites_weaken; [|exact Hrw]. by intros j ->.
    - intros Hall. apply Hfresh. intros d0 Hd0. by apply (Hall id d0). }
  destruct tok as [[tok|]|e]; try (by intros [= _ <-]).
  destruct (truthy_str (Some tok)); [|by intros [= _ <-]].
  destruct (live_row sp tok id lat lon); by intros [= _ <-].
Qed.

Lemma visit_docs_search_step sid clat clon radius docs :
  ∀ acc db r db',
    visit_docs M pgh quote sp fs_ok sid clat clon radius docs acc db = (r, db') →
    search_step pgh sid db db' ∧ (tokens_fresh sp db → db' = db).
Proof.
  induction docs as [|[id d] docs IH]; intros acc db r db'; simpl.
  - intros [= _ <-]. split; [apply search_step_refl|done].
  - destruct (visit_doc M pgh quote sp fs_ok sid clat clon radius acc db (id, d))
      as [[acc1|e] db1] eqn:Hstep; apply visit_doc_search_step in Hstep as [Hstep Hfresh].
    + intros Hrest. apply IH in Hrest as [Hrest Hfresh']. split; [by eapply search_step_trans|].
      intros Hall. rewrite (Hfresh Hall) in *. by apply Hfresh'.
    + by intros [= _ <-].
Qed.

Lemma scan_cells_search_step sid clat clon radius cells :
  ∀ acc db r db',
    scan_cells M pgh quote sp fs_ok sid clat clon radius cells acc db = (r, db') →
    search_step pgh sid db db' ∧ (tokens_fresh sp db → db' = db).
Proof.
  induction cells as [|cell cells IH]; intros acc db r db'; simpl.
  - intros [= _ <-]. split; [apply search_step_refl|done].
  - destruct (stream fs_ok db cell) as [docs|e];
      [|intros [= _ <-]; split; [apply search_step_refl|done]].
    destruct (visit_docs M pgh quote sp fs_ok sid clat clon radius docs acc db)
      as [[acc1|e] db1] eqn:Hvisit; apply visit_docs_search_step in Hvisit as [Hstep Hfresh].
    + intros Hrest. apply IH in Hrest as [Hrest Hfresh']. split; [by eapply search_step_trans|].
      intros Hall. rewrite (Hfresh Hall) in *. by apply Hfresh'.
    + by intros [= _ <-].
Qed.

Lemma users_nearby_search_step (db : store) (sid : string) (body : option (nearby_body F)) :
  search_step pgh sid db (search db (Some sid) body).2
  ∧ (tokens_fresh sp db → (search db (Some sid) body).2 = db).
Proof.
  unfold users_nearby.
  destruct (truthy_str (Some sid)); [|split; [apply search_step_refl|done]].
  destruct (read_body M parse_float body) as [[[clat clon] radius]|];
    [|split; [apply search_step_refl|done]].
  destruct (scan_cells _ _ _ _ _ _ _ _ _ _ _ _) as [[rows|e] db'] eqn:Hscan;
    by apply scan_cells_search_step in Hscan.
Qed.

(** X7: the search answers 401 exactly without a session id, 400 exactly
    when the body cannot be read, never 404 or a bare status; a refused
    search does not touch the store. *)
Theorem users_nearby_refusals (db : store) (session_id : option string)
    (body : option (nearby_body F)) :
  ((search db session_id body).1 = Error401 ↔ truthy_str session_id = false)
  ∧ ((search db session_id body).1 = Error400
     ↔ truthy_str session_id = true ∧ read_body M parse_float body = None)
  ∧ (search db session_id body).1 ≠ Error404
  ∧ (search db session_id body).1 ≠ Status200
  ∧ ((search db session_id body).1 = Error401 ∨ (search db session_id body).1 = Error400 →
     (search db session_id body).2 = db).
Proof.
  unfold users_nearby. destruct session_id as [sid|]; [|by repeat split; try intros [? ?]].
  destruct (truthy_str (Some sid)); [|by repeat split; try intros [? ?]].
  destruct (read_body M parse_float body) as [[[clat clon] radius]|];
    [|by repeat split; try intros [? ?]].
  destruct (scan_cells _ _ _ _ _ _ _ _ _ _ _ _) as [[rows|e] db']; simpl;
    repeat split; try done; try (by intros [? ?]); by intros [?|?].
Qed.

(** X8: a search keeps the users of the store: the same ids, every document
    with the position, the demonstration fields and the sharing it had; the
    document of the user who asks and those of the demonstration users are
    not written at all. *)
Theorem users_nearby_keeps_store (db : store) (session_id : option string)
    (body : option (nearby_body F)) :
  dom (search db session_id body).2 = dom db
  ∧ (∀ id d', (search db session_id body).2 !! id = Some d' →
       ∃ d, db !! id = Some d ∧ same_profile d d')
  ∧ (∀ id, session_id = Some id ∨ contains "fake_user" id = true →
       (search db session_id body).2 !! id = db !! id).
Proof.
  destruct session_id as [sid|]; [|by split; [|split; [eauto using same_profile_refl|]]].
  destruct (users_nearby_search_step db sid body) as [[Hrw _] _].
  split; [by eapply rewrites_dom|]. split.
  - intros id d' Hd'. by eapply rewrites_lookup.
  - intros id Hid. apply (Hrw id). intros [Hne Hfake].
    destruct Hid as [[= ->]|Hid]; [done|congruence].
Qed.

(** X9: a search writes only to refresh an expired token: on a store whose
    tokens have not expired it changes nothing. *)
Theorem fresh_tokens_read_only (db : store) (session_id : option string)
    (body : option (nearby_body F)) :
  tokens_fresh sp db → (search db session_id body).2 = db.
Proof.
  intros Hfresh. destruct session_id as [sid|]; [|done].
  by apply users_nearby_search_step.
Qed.

(** X10: every row of a search carries the position stored for its user,
    before the search and after it. *)
Theorem rows_at_stored_position (db : store) (session_id : option string)
    (body : option (nearby_body F)) :
  Forall (λ r, ∃ d d',
            db !! row_id r = Some d
            ∧ (search db session_id body).2 !! row_id r = Some d'
            ∧ latitude d = Some (row_latitude r) ∧ longitude d = Some (row_longitude r)
            ∧ latitude d' = Some (row_latitude r) ∧ longitude d' = Some (row_longitude r))
    (rows_of (search db session_id body).1).
Proof.
  destruct session_id as [sid|]; [|by apply Forall_nil].
  destruct (read_body M parse_float body) as [[[clat clon] radius]|] eqn:Hbody.
  - destruct (users_nearby_search_step db sid body) as [[Hrw _] _].
    eapply Forall_impl; [by apply users_nearby_rows|].
    intros r [_ (d & Hd & _ & Hlat & Hlon)].
    destruct (Hrw (row_id r)) as [_ Hp]. rewrite Hd in Hp.
    destruct ((search db (Some sid) body).2 !! row_id r) as [d'|]; [|done].
    destruct Hp as (Hlat' & Hlon' & _).
    exists d, d'. rewrite Hlat', Hlon'. done.
  - unfold users_nearby. rewrite Hbody. destruct (truthy_str (Some sid)); by apply Forall_nil.
Qed.

Lemma users_nearby_rows_shared (db : store) (session_id : option string)
    (body : option (nearby_body F)) :
  Forall (λ r, ∃ d, db !! row_id r = Some d ∧ location_sharing_enabled d = Some true
                    ∧ is_Some (latitude d) ∧ is_Some (longitude d))
    (rows_of (search db session_id body).1).
Proof.
  destruct session_id as [sid|]; [|by apply Forall_nil].
  destruct (read_body M parse_float body) as [[[clat clon] radius]|] eqn:Hbody.
  - eapply Forall_impl; [by apply users_nearby_rows|].
    intros r [_ (d & Hd & Hs & Hlat & Hlon)]. eauto 10.
  - unfold users_nearby. rewrite Hbody. destruct (truthy_str (Some sid)); by apply Forall_nil.
Qed.

(** *** The rows of a search *)

(** Rows are only ever appended. *)
Lemma visit_docs_appends sid clat clon radius docs :
  ∀ acc db acc' db',
    visit_docs M pgh quote sp fs_ok sid clat clon radius docs acc db = (Ok acc', db') →
    ∃ new, acc' = acc ++ new.
Proof.
  induction docs as [|[id d] docs IH]; intros acc db acc' db'; simpl.
  - intros [= <- <-]. exists []. by rewrite app_nil_r.
  - destruct (visit_doc M pgh quote sp fs_ok sid clat clon radius acc db (id, d))
      as [[acc1|e] db1] eqn:Hstep; [|done].
    apply visit_doc_step in Hstep as [_ Hacc1].
    intros Hrest. apply IH in Hrest as [new ->].
    destruct Hacc1 as [->|(r & -> & _)]; [eauto|].
    exists ([r] ++ new). by rewrite app_assoc.
Qed.

Lemma scan_cells_appends sid clat clon radius cells :
  ∀ acc db acc' db',
    scan_cells M pgh quote sp fs_ok sid clat clon radius cells acc db = (Ok acc', db') →
    ∃ new, acc' = acc ++ new.
Proof.
  induction cells as [|cell cells IH]; intros acc db acc' db'; simpl.
  - intros [= <- <-]. exists []. by rewrite app_nil_r.
  - destruct (stream fs_ok db cell) as [docs|e]; [|done].
    destruct (visit_docs M pgh quote sp fs_ok sid clat clon radius docs acc db)
      as [[acc1|e] db1] eqn:Hvisit; [|done].
    apply visit_docs_appends in Hvisit as [new1 ->].
    intros Hrest. apply IH in Hrest as [new ->].
    exists (new1 ++ new). by rewrite app_assoc.
Qed.

(** A demonstration user among the documents of a cell, within the radius,
    has its row once the cell is visited. *)
Lemma visit_docs_fake sid clat clon radius id d lat lon distance docs :
  id ≠ sid → contains "fake_user" id = true →
  latitude d = Some lat → longitude d = Some lon →
  haversine M clat clon lat lon = Some distance →
  f_leb M distance (f_mul M radius (f_lit M 11 1)) = true →
  (id, d) ∈ docs →
  ∀ acc db acc' db',
    visit_docs M pgh quote sp fs_ok sid clat clon radius docs acc db = (Ok acc', db') →
    fake_row quote id lat lon d ∈ acc'.
Proof.
  intros Hid Hfake Hlat Hlon Hdist Hnear. apply String.eqb_neq in Hid.
  induction docs as [|kv docs IH]; intros Hin acc db acc' db'; [by apply elem_of_nil in Hin|].
  simpl. apply elem_of_cons in Hin as [<-|Hin].
  - unfold visit_doc at 1. rewrite Hid, Hlat, Hlon, Hdist, Hnear, Hfake.
    intros Hrest. apply visit_docs_appends in Hrest as [new ->].
    rewrite !elem_of_app, list_elem_of_singleton. auto.
  - destruct (visit_doc M pgh quote sp fs_ok sid clat clon radius acc db kv)
      as [[acc1|e] db1]; [|done].
    by apply IH.
Qed.

Lemma scan_cells_fake sid clat clon radius id d lat lon distance cell cells :
  id ≠ sid → contains "fake_user" id = true →
  latitude d = Some lat → longitude d = Some lon →
  haversine M clat clon lat lon = Some distance →
  f_leb M distance (f_mul M radius (f_lit M 11 1)) = true →
  in_cell cell d = true →
  cell ∈ cells →
  ∀ acc db acc' db',
    db !! id = Some d →
    scan_cells M pgh quote sp fs_ok sid clat clon radius cells acc db = (Ok acc', db') →
    fake_row quote id lat lon d ∈ acc'.
Proof.
  intros Hid Hfake Hlat Hlon Hdist Hnear Hcell.
  induction cells as [|c cells IH]; intros Hin acc db acc' db' Hd; [by apply elem_of_nil in Hin|].
  simpl.
  destruct (stream fs_ok db c) as [docs|e] eqn:Hdocs; [|done].
  destruct (visit_docs M pgh quote sp fs_ok sid clat clon radius docs acc db)
    as [[acc1|e] db1] eqn:Hvisit; [|done].
  intros Hrest. apply elem_of_cons in Hin as [<-|Hin].
  - apply scan_cells_appends in Hrest as [new ->].
    apply elem_of_app. left.
    eapply visit_docs_fake; [done..| |exact Hvisit].
    by apply (stream_spec fs_ok db cell docs Hdocs).
  - eapply IH; [done| |exact Hrest].
    apply visit_docs_search_step in Hvisit as [[Hrw _] _].
    rewrite (proj1 (Hrw id)); [done|]. intros [_ Hnot]. congruence.
Qed.

(** X11: a search that answers lists every demonstration user that shares a
    position in one of the scanned cells and within the radius, with the row
    built from its stored fields. *)
Theorem fake_user_listed (db : store) (sid : string) (body : option (nearby_body F))
    (clat clon radius : F) (rows : list (row F)) (db' : store)
    (id : string) (d : doc) (lat lon distance : F) (cell : string) :
  read_body M parse_float body = Some (clat, clon, radius) →
  search db (Some sid) body = (Json200 rows, db') →
  db !! id = Some d → id ≠ sid → contains "fake_user" id = true →
  latitude d = Some lat → longitude d = Some lon →
  cell ∈ get_all_neighbors pgh (pgh_encode pgh clat clon (precision_of_radius M radius)) →
  in_cell cell d = true →
  haversine M clat clon lat lon = Some distance →
  f_leb M distance (f_mul M radius (f_lit M 11 1)) = true →
  fake_row quote id lat lon d ∈ rows.
Proof.
  intros Hbody Hsearch Hd Hid Hfake Hlat Hlon Hcell Hin Hdist Hnear.
  unfold users_nearby in Hsearch. rewrite Hbody in Hsearch.
  destruct (truthy_str (Some sid)); [|done].
  destruct (scan_cells _ _ _ _ _ _ _ _ _ _ _ _) as [[rows'|e] db1] eqn:Hscan; [|done].
  injection Hsearch as -> ->.
  eapply scan_cells_fake; [exact Hid|exact Hfake|exact Hlat|exact Hlon|exact Hdist|exact Hnear|
                           exact Hin|exact Hcell|exact Hd|exact Hscan].
Qed.

Lemma stream_NoDup (db : store) (cell : string) (docs : list (string * doc)) :
  stream fs_ok db cell = Ok docs → NoDup docs.*1.
Proof.
  unfold stream. destruct (fs_ok (FsStream cell)); [|done]. intros [= <-].
  eapply sublist_NoDup; [apply (NoDup_fst_map_to_list db)|].
  apply fmap_sublist, sublist_filter.
Qed.

Lemma visit_docs_NoDup sid clat clon radius docs :
  ∀ acc db acc' db',
    NoDup docs.*1 → NoDup (row_id <$> acc) →
    (∀ r, r ∈ acc → row_id r ∉ docs.*1) →
    visit_docs M pgh quote sp fs_ok sid clat clon radius docs acc db = (Ok acc', db') →
    NoDup (row_id <$> acc') ∧ ∀ r, r ∈ acc' → r ∈ acc ∨ row_id r ∈ docs.*1.
Proof.
  induction docs as [|[id d] docs IH]; intros acc db acc' db' Hdocs Hacc Hfresh; simpl.
  - intros [= <- <-]. auto.
  - apply NoDup_cons in Hdocs as [Hid Hdocs].
    destruct (visit_doc M pgh quote sp fs_ok sid clat clon radius acc db (id, d))
      as [[acc1|e] db1] eqn:Hstep; [|done].
    apply visit_doc_step in Hstep as [_ Hacc1]. intros Hrest.
    destruct Hacc1 as [->|(r & -> & _ & Hrid & _)].
    + apply IH in Hrest as [Hnd Hfrom]; [|done..|].
      * split; [done|]. intros r Hr. destruct (Hfrom r Hr); [by left|].
        right. by apply elem_of_cons; right.
      * intros r Hr Hin. apply (Hfresh r Hr). by apply elem_of_cons; right.
    + apply IH in Hrest as [Hnd Hfrom]; [|done|..].
      * split; [done|]. intros r' Hr'. destruct (Hfrom r' Hr') as [Hold|Hnew].
        -- apply elem_of_app in Hold as [Hold|Hold]; [by left|].
           apply list_elem_of_singleton in Hold as ->. right. rewrite Hrid.
           by apply elem_of_cons; left.
        -- right. by apply elem_of_cons; right.
      * rewrite fmap_app. apply NoDup_app. split; [done|]. split; [|apply NoDup_singleton].
        intros x Hx Hx'. apply list_elem_of_singleton in Hx' as ->.
        apply list_elem_of_fmap in Hx as (r' & Hr' & Hin).
        apply (Hfresh r' Hin). rewrite <- Hr', Hrid. by apply elem_of_cons; left.
      * intros r' Hr' Hin. apply elem_of_app in Hr' as [Hr'|Hr'].
        -- apply (Hfresh r' Hr'). by apply elem_of_cons; right.
        -- apply list_elem_of_singleton in Hr' as ->. by rewrite Hrid in Hin.
Qed.

Lemma scan_cells_NoDup (db0 : store) (n : nat) sid clat clon radius cells :
  ∀ acc db acc' db',
    NoDup cells → (∀ c, c ∈ cells → String.length c = n) →
    store_consistent pgh db → same_cells db0 db →
    NoDup (row_id <$> acc) →
    (∀ r, r ∈ acc →
       ∃ c, (c ∉ cells) ∧ String.length c = n ∧ stored_in_cell db0 c (row_id r)) →
    scan_cells M pgh quote sp fs_ok sid clat clon radius cells acc db = (Ok acc', db') →
    NoDup (row_id <$> acc').
Proof.
  induction cells as [|cell cells IH];
    intros acc db acc' db' Hcells Hlen Hcons Hsame Hacc Hin; simpl.
  - by intros [= <- <-].
  - apply NoDup_cons in Hcells as [Hcell Hcells].
    destruct (stream fs_ok db cell) as [docs|e] eqn:Hdocs; [|done].
    destruct (visit_docs M pgh quote sp fs_ok sid clat clon radius docs acc db)
      as [[acc1|e] db1] eqn:Hvisit; [|done].
    assert (Hdocs_in : ∀ id, id ∈ docs.*1 → stored_in_cell db0 cell id).
    { intros id Hid. apply list_elem_of_fmap in Hid as ([id' d] & -> & Hid). simpl.
      apply (stream_spec fs_ok db cell docs Hdocs) in Hid as [Hd Hc].
      destruct (in_cell_stored db cell id' d Hd Hc) as (g & Hg & Hp).
      exists g. by rewrite <- Hsame. }
    pose proof (visit_docs_search_step _ _ _ _ _ _ _ _ _ Hvisit) as [[_ Hcons1] _].
    destruct (Hcons1 Hcons) as [Hcons' Hsame1].
    apply visit_docs_NoDup in Hvisit as [Hnd Hfrom]; [|by eapply stream_NoDup|done|].
    + apply IH; [done|intros c Hc; by apply Hlen, elem_of_cons; right|done|
                 by eapply same_cells_trans|done|].
      intros r Hr. destruct (Hfrom r Hr) as [Hold|Hnew].
      * destruct (Hin r Hold) as (c & Hc & Hn & Hst). exists c. split; [|done].
        intros Hc'. apply Hc. by apply elem_of_cons; right.
      * exists cell. split; [done|]. split; [by apply Hlen, elem_of_cons; left|by apply Hdocs_in].
    + intros r Hr Hid. destruct (Hin r Hr) as (c & Hc & Hn & (g & Hg & Hp)).
      destruct (Hdocs_in _ Hid) as (g' & Hg' & Hp').
      rewrite Hg in Hg'. injection Hg' as <-.
      apply Hc. apply elem_of_cons; left.
      eapply prefix_same_length; [done..|].
      rewrite Hn. symmetry. by apply Hlen, elem_of_cons; left.
Qed.

(** X12: on a store where every position has its geohash, a search whose
    cells all have the length of the centre cell lists no user twice. *)
Theorem users_nearby_no_duplicates (db : store) (session_id : option string)
    (body : option (nearby_body F)) (clat clon radius : F) :
  store_consistent pgh db →
  read_body M parse_float body = Some (clat, clon, radius) →
  (∀ c, c ∈ get_all_neighbors pgh (pgh_encode pgh clat clon (precision_of_radius M radius)) →
        String.length c
        = String.length (pgh_encode pgh clat clon (precision_of_radius M radius))) →
  NoDup (row_id <$> rows_of (search db session_id body).1).
Proof.
  intros Hcons Hbody Hlen. unfold users_nearby. rewrite Hbody.
  destruct session_id as [sid|]; [|apply NoDup_nil_2].
  destruct (truthy_str (Some sid)); [|apply NoDup_nil_2].
  destruct (scan_cells _ _ _ _ _ _ _ _ _ _ _ _) as [[rows|e] db'] eqn:Hscan; [|apply NoDup_nil_2].
  simpl. eapply (scan_cells_NoDup db) in Hscan; [done| |exact Hlen|done|done|apply NoDup_nil_2|].
  - unfold get_all_neighbors. apply NoDup_elements.
  - intros r Hr. by apply elem_of_nil in Hr.
Qed.

Lemma scan_cells_cell_down sid clat clon radius cell cells :
  cell ∈ cells → fs_ok (FsStream cell) = false →
  ∀ acc db, ∃ e db',
    scan_cells M pgh quote sp fs_ok sid clat clon radius cells acc db = (Raise e, db').
Proof.
  intros Hin Hdown. induction cells as [|c cells IH]; [by apply elem_of_nil in Hin|].
  intros acc db. simpl. unfold stream at 1.
  destruct (fs_ok (FsStream c)) eqn:Hc; [|eauto].
  destruct (visit_docs _ _ _ _ _ _ _ _ _ _ _ _) as [[acc1|e] db1]; [|eauto].
  apply IH. apply elem_of_cons in Hin as [->|Hin]; [congruence|done].
Qed.

(** X13: when the query of one of the cells of a search fails, the search
    answers no rows at all: an exception leaves the view. *)
Theorem cell_failure_is_fatal (db : store) (sid : string) (body : option (nearby_body F))
    (clat clon radius : F) (cell : string) :
  truthy_str (Some sid) = true →
  read_body M parse_float body = Some (clat, clon, radius) →
  cell ∈ get_all_neighbors pgh (pgh_encode pgh clat clon (precision_of_radius M radius)) →
  fs_ok (FsStream cell) = false →
  ∃ e db', search db (Some sid) body = (Unhandled e, db').
Proof.
  intros Hsid Hbody Hcell Hdown. unfold users_nearby. rewrite Hsid, Hbody.
  destruct (scan_cells_cell_down sid clat clon radius cell _ Hcell Hdown [] db)
    as (e & db' & ->).
  eauto.
Qed.
End SearchStore.

Lemma not_shared_unlisted {F : Type} (M : pymath F) (pgh : pygeohash F)
    (db : gmap string (user_doc F)) (id : string) (d : user_doc F) :
  db !! id = Some d → location_sharing_enabled d ≠ Some true → unlisted M pgh db id.
Proof.
  intros Hd Hoff quote parse_float sp fs_ok session_id body.
  eapply Forall_impl; [apply users_nearby_rows_shared|].
  intros r (d' & Hd' & Hon & _) <-. congruence.
Qed.

(** X14: a user without a document, or whose document lacks the latitude or
    the longitude, is listed by no search. *)
Theorem no_position_unlisted {F : Type} (M : pymath F) (pgh : pygeohash F)
    (db : gmap string (user_doc F)) (id : string) :
  db !! id ≫= latitude = None ∨ db !! id ≫= longitude = None →
  unlisted M pgh db id.
Proof.
  intros Hnone quote parse_float sp fs_ok session_id body.
  eapply Forall_impl; [apply users_nearby_rows_shared|].
  intros r (d & Hd & _ & [lat Hlat] & [lon Hlon]) <-.
  rewrite Hd in Hnone. simpl in Hnone. destruct Hnone; congruence.
Qed.

(** X15: in exact arithmetic a search with a negative radius lists nobody. *)
Theorem negative_radius_empty (pgh : pygeohash R) (quote : string → string)
    (parse_float : string → option R) (sp : spotipy) (fs_ok : fs_op → bool)
    (db : gmap string (user_doc R)) (session_id : option string)
    (body : option (nearby_body R)) (clat clon radius : R) :
  read_body real_math parse_float body = Some (clat, clon, radius) →
  (radius < 0)%R →
  rows_of (users_nearby real_math pgh quote parse_float sp fs_ok db session_id body).1 = [].
Proof.
  intros Hbody Hneg.
  destruct session_id as [sid|]; [|done].
  pose proof (users_nearby_rows real_math pgh quote parse_float sp fs_ok db sid body _ _ _ Hbody)
    as Hrows.
  destruct (rows_of _) as [|r rows]; [done|].
  apply Forall_cons in Hrows as [[[_ (distance & Hdist & Hnear)] _] _].
  apply haversine_real_bounds in Hdist as [Hpos _].
  simpl in Hnear. destruct (Rle_dec distance _) as [Hle|]; [|done]. lra.
Qed.

(** ** The other routes *)

Section RouteEffects.
Context {F : Type} (M : pymath F).
Context (pgh : pygeohash F) (quote : string → string).
Context (parse_float : string → option F).
Context (sp : spotipy) (oauth : spotify_login) (fs_ok : fs_op → bool).

Local Abbreviation doc := (user_doc F).
Local Abbreviation store := (gmap string (user_doc F)).

Lemma location_at_7_fixed (old : option doc) (new : doc) :
  location_at_7 pgh old new →
  (∀ d, old = Some d → geohash_fixed pgh d) → geohash_fixed pgh new.
Proof.
  intros [(lat & lon & Hlat & Hlon & Hg)|(Hlat & Hlon & Hg)] Hold lat' lon'.
  - rewrite Hlat, Hlon. by intros [= <-] [= <-].
  - rewrite Hlat, Hlon, Hg. destruct old as [d|]; [by apply Hold|done].
Qed.

Lemma save_user_data_consistent db id ti location sharing db' :
  save_user_data pgh fs_ok db id ti location sharing = Ok db' →
  store_consistent pgh db → store_consistent pgh db'.
Proof.
  intros Hsave Hcons j d' Hd'.
  eapply location_at_7_fixed; [by eapply save_user_data_location|].
  intros d Hd. by apply (Hcons j d).
Qed.

Lemma update_location_consistent db session form :
  store_consistent pgh db →
  store_consistent pgh (update_location pgh parse_float fs_ok db session form).2.
Proof.
  intros Hcons j d' Hd'.
  destruct (update_location pgh parse_float fs_ok db session form) as [r db'] eqn:Hup.
  eapply location_at_7_fixed; [by eapply update_location_location|].
  intros d Hd. by apply (Hcons j d).
Qed.

(** X16: every route keeps the store consistent: where a position is
    stored, the geohash stored with it is the geohash of length 7 of that
    position. *)
Theorem routes_keep_geohash (db : store) :
  store_consistent pgh db →
  (∀ id ti location sharing db',
     save_user_data pgh fs_ok db id ti location sharing = Ok db' → store_consistent pgh db')
  ∧ (∀ id, store_consistent pgh (get_token_info M pgh sp fs_ok db id).2)
  ∧ (∀ session_id code, store_consistent pgh (callback pgh oauth fs_ok db session_id code).1.2)
  ∧ (∀ session_id, store_consistent pgh (now_playing M pgh sp fs_ok db session_id).2)
  ∧ (∀ session_id form,
       store_consistent pgh (update_location pgh parse_float fs_ok db session_id form).2)
  ∧ (∀ session_id body,
       store_consistent pgh (users_nearby M pgh quote parse_float sp fs_ok db session_id body).2).
Proof.
  intros Hcons.
  assert (Hget : ∀ id, store_consistent pgh (get_token_info M pgh sp fs_ok db id).2).
  { intros id. destruct (get_token_info M pgh sp fs_ok db id) as [r db'] eqn:Hget.
    apply get_token_info_step in Hget as (_ & Hstep & _). by apply Hstep. }
  split; [intros id ti location sharing db' Hsave; by eapply save_user_data_consistent|].
  split; [done|]. split.
  { intros session_id code. unfold callback.
    destruct code as [c|]; [|done]. destruct (truthy_str (Some c)); [|done].
    destruct (get_access_token oauth c) as [ti|]; [|done].
    destruct (current_user_id oauth _) as [id|]; [|done].
    destruct (save_user_data _ _ _ _ _ _ _) as [db'|e] eqn:Hsave; [|done].
    by eapply save_user_data_consistent. }
  split.
  { intros session_id. unfold now_playing.
    destruct session_id as [sid|]; [|done]. destruct (truthy_str (Some sid)); [|done].
    specialize (Hget sid).
    destruct (get_token_info M pgh sp fs_ok db sid) as [[[tok|]|e] db'] eqn:Htok; try done.
    by destruct (truthy_str (Some tok)). }
  split; [intros session_id form; by apply update_location_consistent|].
  intros [sid|] body; [|done].
  by apply (users_nearby_search_step M pgh quote parse_float sp fs_ok db sid body).
Qed.

(** X17: a login that succeeds stores the tokens of the code for the user
    Spotify names, switches sharing off, keeps the position the user had,
    touches no other document and puts the user into the session; any other
    outcome leaves store and session as they were; without a code the answer
    is 400. *)
Theorem callback_effects (db : store) (session_id code : option string)
    (r : callback_response) (db' : store) (session' : option string) :
  callback pgh oauth fs_ok db session_id code = (r, db', session') →
  (r = RedirectFrontend →
     ∃ c ti id d',
       code = Some c ∧ get_access_token oauth c = Some ti
       ∧ current_user_id oauth (access_token ti) = Some id
       ∧ session' = Some id
       ∧ db' !! id = Some d'
       ∧ tokens_of d' = ti
       ∧ location_sharing_enabled d' = Some false
       ∧ latitude d' = latitude (default empty_doc (db !! id))
       ∧ longitude d' = longitude (default empty_doc (db !! id))
       ∧ geohash d' = geohash (default empty_doc (db !! id))
       ∧ ∀ j, j ≠ id → db' !! j = db !! j)
  ∧ (r ≠ RedirectFrontend → db' = db ∧ session' = session_id)
  ∧ (r = NoCode400 ↔ truthy_str code = false).
Proof.
  unfold callback.
  destruct code as [c|]; [|by intros [= <- <- <-]].
  destruct (truthy_str (Some c)); [|by intros [= <- <- <-]].
  destruct (get_access_token oauth c) as [ti|] eqn:Hti; [|by intros [= <- <- <-]].
  destruct (current_user_id oauth _) as [id|] eqn:Hid; [|by intros [= <- <- <-]].
  unfold save_user_data. destruct (fs_ok (FsSet id)); [|by intros [= <- <- <-]].
  intros [= <- <- <-]. split; [|by split].
  intros _. exists c, ti, id. eexists. rewrite lookup_insert_eq.
  do 5 (split; [done|]). split; [by destruct ti|].
  do 4 (split; [done|]). intros j Hj. by rewrite lookup_insert_ne.
Qed.

(** X18: after a login the user is listed by no search, whoever asks. *)
Theorem login_unlists (db : store) (session_id code : option string)
    (db' : store) (id : string) :
  callback pgh oauth fs_ok db session_id code = (RedirectFrontend, db', Some id) →
  unlisted M pgh db' id.
Proof.
  unfold callback.
  destruct code as [c|]; [|done]. destruct (truthy_str (Some c)); [|done].
  destruct (get_access_token oauth c) as [ti|]; [|done].
  destruct (current_user_id oauth _) as [id'|]; [|done].
  unfold save_user_data. destruct (fs_ok (FsSet id')); [|done].
  intros [= <- <-].
  eapply not_shared_unlisted; [apply lookup_insert_eq|done].
Qed.

(** X19: what [update_location] does: it writes at most the document of the
    session, and only with the answer 200; it never creates a document; the
    document keeps its tokens and demonstration fields, shares exactly when
    the form says [sharing=on], and keeps its position unless the form holds
    both coordinates. *)
Theorem update_location_effect (db : store) (session_id : option string)
    (form : location_form) (r : response F) (db' : store) :
  update_location pgh parse_float fs_ok db session_id form = (r, db') →
  dom db' = dom db
  ∧ (∀ j, session_id ≠ Some j → db' !! j = db !! j)
  ∧ (r ≠ Status200 → db' = db)
  ∧ (r = Status200 →
       ∃ sid old new,
         session_id = Some sid ∧ db !! sid = Some old ∧ db' !! sid = Some new
         ∧ tokens_of new = tokens_of old
         ∧ track new = track old ∧ artist new = artist old
         ∧ image new = image old ∧ user_name new = user_name old
         ∧ location_sharing_enabled new = Some (bool_decide (form_sharing form = Some "on"))
         ∧ (truthy_str (form_lat form) && truthy_str (form_lon form) = false →
            latitude new = latitude old ∧ longitude new = longitude old
            ∧ geohash new = geohash old)).
Proof.
  unfold update_location.
  destruct session_id as [sid|]; [|by intros [= <- <-]].
  destruct (truthy_str (Some sid)); [|by intros [= <- <-]].
  match goal with |- context [match ?loc with Ok _ => _ | Raise _ => _ end] =>
    destruct loc as [location|e] eqn:Hloc end; [|by intros [= <- <-]].
  destruct (fs_ok (FsGet sid)); [|by intros [= <- <-]].
  destruct (db !! sid) as [old|] eqn:Hold; [|by intros [= <- <-]].
  destruct (fs_ok (FsUpdate sid)); [|by intros [= <- <-]].
  intros [= <- <-]. split; [|split; [|split; [done|]]].
  - apply dom_insert_lookup_L. by rewrite Hold.
  - intros j Hj. rewrite lookup_insert_ne; [done|congruence].
  - intros _. exists sid, old. eexists. rewrite lookup_insert_eq.
    do 3 (split; [done|]).
    destruct location as [[lat lon]|]; simpl; (do 6 (split; [done|])); [|done].
    intros Hform. destruct (form_lat form) as [slat|], (form_lon form) as [slon|]; try done.
    simpl in Hform. simpl in Hloc. rewrite Hform in Hloc. done.
Qed.

(** X20: after an update whose form does not say [sharing=on] the user is
    listed by no search, also when the form held a position. *)
Theorem update_without_sharing_unlists (db : store) (sid : string)
    (form : location_form) (db' : store) :
  update_location pgh parse_float fs_ok db (Some sid) form = (Status200, db') →
  form_sharing form ≠ Some "on" →
  unlisted M pgh db' sid.
Proof.
  unfold update_location.
  destruct (truthy_str (Some sid)); [|done].
  match goal with |- context [match ?loc with Ok _ => _ | Raise _ => _ end] =>
    destruct loc as [location|e] end; [|done].
  destruct (fs_ok (FsGet sid)); [|done].
  destruct (db !! sid) as [old|]; [|done].
  destruct (fs_ok (FsUpdate sid)); [|done].
  intros [= <-] Hoff.
  eapply not_shared_unlisted; [apply lookup_insert_eq|].
  rewrite bool_decide_eq_false_2 by done. by destruct location as [[? ?]|].
Qed.

(** X21: [now_playing] and the search read the same track: for a token, the
    search builds a row exactly when [now_playing] answers a track, with the
    same five fields. *)
Theorem live_row_now_playing (tok id : string) (lat lon : F) :
  (∀ r, live_row sp tok id lat lon = Some r →
        current_track_of sp tok
        = Playing (row_track_name r) (row_artist r) (row_album_art_url r)
            (row_track_url r) (row_artist_url r))
  ∧ (∀ track_name artist album_art_url track_url artist_url,
       current_track_of sp tok = Playing track_name artist album_art_url track_url artist_url →
       ∃ r, live_row sp tok id lat lon = Some r
            ∧ row_id r = id ∧ row_latitude r = lat ∧ row_longitude r = lon
            ∧ row_track_name r = track_name ∧ row_artist r = artist
            ∧ row_album_art_url r = album_art_url
            ∧ row_track_url r = track_url ∧ row_artist_url r = artist_url).
Proof.
  unfold live_row, current_track_of.
  destruct (match current_user sp tok with Some _ => _ | None => _ end) as [real_name profile_url].
  destruct (current_user_playing_track sp tok) as [[t|]|]; [|by split..].
  destruct (is_playing t); [|by split].
  destruct (item t) as [it|]; [|by split]. simpl.
  destruct (item_name it) as [name|];
    [|by split; destruct (match item_artists it with [] => _ | _ => _ end)].
  destruct (item_artists it) as [|a rest]; [by split|]. simpl.
  destruct (artist_spotify_url a) as [aurl|]; [|by split]. simpl.
  destruct (artist_name a) as [aname|]; [|by split]. simpl.
  destruct (item_album_images it) as [|[img|] imgs]; [by split| |by split]. simpl.
  destruct (item_spotify_url it) as [turl|]; [|by split]. simpl.
  split.
  - by intros r [= <-].
  - intros ? ? ? ? ? [= <- <- <- <- <-]. eexists. by repeat split.
Qed.


(** X23: [now_playing] answers 401 without a session id and for a user
    without document, 500 when Spotify's request fails, and lets a failure
    of Firestore leave the view; what it does to the store is what
    [get_token_info] does: it writes at most the document of the session,
    and keeps its profile. *)
Theorem now_playing_answers (db : store) (session_id : option string) :
  ((now_playing M pgh sp fs_ok db session_id).1 = NotLoggedIn401
   ↔ truthy_str session_id = false)
  ∧ ((now_playing M pgh sp fs_ok db session_id).1 = NotLoggedIn401 →
     (now_playing M pgh sp fs_ok db session_id).2 = db)
  ∧ (∀ sid, session_id = Some sid → truthy_str session_id = true →
       (now_playing M pgh sp fs_ok db session_id).2 = (get_token_info M pgh sp fs_ok db sid).2
       ∧ (fs_ok (FsGet sid) = false →
          (now_playing M pgh sp fs_ok db session_id).1 = PlayingUnhandled FirestoreError)
       ∧ (fs_ok (FsGet sid) = true → db !! sid = None →
          (now_playing M pgh sp fs_ok db session_id).1 = TokenExpired401)
       ∧ (∀ tok, (get_token_info M pgh sp fs_ok db sid).1 = Ok (Some tok) →
            tok ≠ "" → current_user_playing_track sp tok = None →
            (now_playing M pgh sp fs_ok db session_id).1 = Failed500))
  ∧ dom (now_playing M pgh sp fs_ok db session_id).2 = dom db
  ∧ (∀ j, session_id ≠ Some j → (now_playing M pgh sp fs_ok db session_id).2 !! j = db !! j)
  ∧ (∀ j d', (now_playing M pgh sp fs_ok db session_id).2 !! j = Some d' →
       ∃ d, db !! j = Some d ∧ same_profile d d').
Proof.
  unfold now_playing.
  destruct session_id as [sid|].
  2: { repeat split; try done. intros j d' Hd'. eauto using same_profile_refl. }
  destruct (truthy_str (Some sid)) eqn:Hsid.
  2: { repeat split; try done. intros j d' Hd'. eauto using same_profile_refl. }
  destruct (get_token_info M pgh sp fs_ok db sid) as [res db'] eqn:Hget.
  pose proof (get_token_info_step _ _ _ _ _ _ _ _ Hget) as [Hrw _].
  set (answer := match res with Ok _ => _ | Raise _ => _ end).
  assert (Hstore : answer.2 = db').
  { subst answer. destruct res as [[tok|]|e]; try done. by destruct (truthy_str (Some tok)). }
  assert (Hnot : answer.1 ≠ NotLoggedIn401).
  { subst answer. destruct res as [[tok|]|e]; try done.
    destruct (truthy_str (Some tok)); [|done].
    simpl. unfold current_track_of.
    destruct (current_user_playing_track sp tok) as [[t|]|]; try done.
    destruct (is_playing t); [|done].
    by repeat (case_match; simplify_option_eq). }
  rewrite Hstore. split; [split; [by intros ?|done]|]. split; [by intros ?|].
  split.
  { intros sid' [= <-] _. rewrite Hget. split; [done|].
    subst answer. unfold get_token_info in Hget. split; [|split].
    - intros Hdown. rewrite Hdown in Hget. by injection Hget as <- <-.
    - intros Hup Hnone. rewrite Hup, Hnone in Hget. by injection Hget as <- <-.
    - simpl. intros tok -> Htok Hfail.
      assert (truthy_str (Some tok) = true) as ->.
      { simpl. by apply negb_true_iff, String.eqb_neq. }
      simpl. unfold current_track_of. by rewrite Hfail. }
  split; [by eapply rewrites_dom|]. split.
  - intros j Hj. apply (Hrw j). congruence.
  - intros j d' Hd'. by eapply rewrites_lookup.
Qed.
End RouteEffects.

(** ** The worked example, continued *)

(** One degree of longitude on the equator is [6371 * PI / 180] km, which is
    111.19 km within 0.1 km. *)
Lemma haversine_arc_witness :
  (Rabs (0 - 0) <= 180)%R ∧ (Rabs (1 - 0) <= 180)%R
  ∧ ∃ d, haversine real_math 0%R 0%R 0%R 1%R = Some d ∧ (111.09 < d < 111.29)%R.
Proof.
  assert (H0 : (Rabs (0 - 0) <= 180)%R).
  { rewrite Rabs_right; lra. }
  assert (H1 : (Rabs (1 - 0) <= 180)%R).
  { rewrite Rabs_right; lra. }
  split; [exact H0|]. split; [exact H1|].
  eexists. split; [exact (proj2 (haversine_arc 0%R 0%R 0%R 0%R 1%R H0 H1))|].
  rewrite Rabs_right by lra. pose proof PI_bounds. lra.
Defined.

(** The cells [u09wj] and [u09tv] of the example and the demonstration
    user. *)
Lemma cells_disjoint_witness :
  in_cell "u09wj" demo_fake_user = true ∧ in_cell "u09tv" demo_fake_user = false.
Proof.
  split; [reflexivity|].
  by apply (cells_disjoint "u09wj" "u09tv" demo_fake_user).
Defined.

(** The documents of [paris_db], one by one. *)
Ltac paris_docs H :=
  apply elem_of_map_to_list in H;
  let l := eval vm_compute in (map_to_list paris_db) in
  change (map_to_list paris_db) with l in H;
  repeat (apply elem_of_cons in H as [H|H]; [injection H as -> ->|]);
  [..|by apply elem_of_nil in H].

Lemma paris_db_consistent : store_consistent pgh_points paris_db.
Proof.
  intros id d Hd lat lon Hlat Hlon.
  paris_docs Hd; simpl in Hlat, Hlon; [done|].
  injection Hlat as <-; injection Hlon as <-. vm_compute. reflexivity.
Qed.

(** The nine cells of the example. *)
Lemma demo_cells (c : string) :
  c ∈ get_all_neighbors pgh_points "u09tv"
  ↔ c ∈ ["u09tu"; "u09ts"; "u09wj"; "u09wh"; "u09tv"; "u09tt"; "u09wn"; "u09ty"; "u09tw"].
Proof.
  unfold get_all_neighbors. rewrite elem_of_elements, elem_of_list_to_set.
  vm_compute pgh_get_adjacent. simpl. rewrite !elem_of_cons, !elem_of_nil. tauto.
Qed.

(** bob's token has expired: the refresh stores the new tokens and answers
    the new access token. *)
Lemma get_token_info_refresh_witness :
  get_token_info (float_math glibc_points) pgh_points demo_spotify always_up demo_db "bob"
  = (Ok (Some "access-bob-2"),
     (get_token_info (float_math glibc_points) pgh_points demo_spotify always_up demo_db "bob").2)
  ∧ (∀ j, j ≠ "bob" →
       (get_token_info (float_math glibc_points) pgh_points demo_spotify always_up demo_db "bob").2
         !! j = demo_db !! j).
Proof.
  assert (Hget : get_token_info (float_math glibc_points) pgh_points demo_spotify always_up
                   demo_db "bob"
                 = (Ok (Some "access-bob-2"),
                    (get_token_info (float_math glibc_points) pgh_points demo_spotify always_up
                       demo_db "bob").2)) by (vm_compute; reflexivity).
  split; [exact Hget|].
  exact (proj1 (get_token_info_refresh (float_math glibc_points) pgh_points demo_spotify
                  always_up demo_db "bob" _ _ Hget)).
Defined.

(** zoe's tokens, saved and read back. *)
Lemma save_then_get_token_witness :
  save_user_data pgh_points always_up paris_db "zoe"
    (TokenInfo (Some "access-zoe") (Some "refresh-zoe") (Some 1700003600%Z)) None false
  = Ok (<["zoe" := UserDoc (Some "access-zoe") (Some "refresh-zoe") (Some 1700003600%Z)
                     (Some false) None None None None None None None]> paris_db)
  ∧ get_token_info (float_math glibc_points) pgh_points demo_spotify always_up
      (<["zoe" := UserDoc (Some "access-zoe") (Some "refresh-zoe") (Some 1700003600%Z)
                    (Some false) None None None None None None None]> paris_db) "zoe"
    = (Ok (Some "access-zoe"),
       <["zoe" := UserDoc (Some "access-zoe") (Some "refresh-zoe") (Some 1700003600%Z)
                    (Some false) None None None None None None None]> paris_db).
Proof.
  split; [reflexivity|].
  apply (save_then_get_token (float_math glibc_points) pgh_points demo_spotify always_up
           paris_db "zoe" (TokenInfo (Some "access-zoe") (Some "refresh-zoe")
                             (Some 1700003600%Z)) None false); reflexivity.
Defined.

(** Without bob no stored token has expired, and alice's search leaves the
    store as it is. *)
Lemma fresh_tokens_read_only_witness :
  tokens_fresh demo_spotify fresh_db
  ∧ (users_nearby (float_math glibc_points) pgh_points urllib_quote no_parse demo_spotify
       always_up fresh_db (Some "alice") demo_body).2 = fresh_db.
Proof.
  assert (Hfresh : tokens_fresh demo_spotify fresh_db).
  { intros id d Hd Hfake. apply elem_of_map_to_list in Hd.
    let l := eval vm_compute in (map_to_list fresh_db) in
    change (map_to_list fresh_db) with l in Hd.
    repeat (apply elem_of_cons in Hd as [Hd|Hd]; [injection Hd as -> ->|]);
      [..|by apply elem_of_nil in Hd]; done. }
  split; [exact Hfresh|].
  exact (fresh_tokens_read_only (float_math glibc_points) pgh_points urllib_quote no_parse
           demo_spotify always_up fresh_db (Some "alice") demo_body Hfresh).
Defined.

(** yann has logged in and never posted a position. *)
Lemma no_position_unlisted_witness :
  paris_db !! "yann" ≫= latitude = None
  ∧ unlisted (float_math glibc_points) pgh_points paris_db "yann".
Proof.
  split; [reflexivity|].
  apply (no_position_unlisted (float_math glibc_points) pgh_points paris_db "yann").
  left. reflexivity.
Defined.

(** The search of the example lists the demonstration user, whose geohash
    lies in the scanned cell [u09wj], 2.7 km from the centre. *)
Lemma fake_user_listed_witness :
  "u09wj" ∈ get_all_neighbors pgh_points "u09tv"
  ∧ in_cell "u09wj" demo_fake_user = true
  ∧ fake_row urllib_quote "fake_user_7" 48.88%float 2.36%float demo_fake_user
    ∈ rows_of (demo_search always_up).1.
Proof.
  assert (Hcell : "u09wj" ∈ get_all_neighbors pgh_points "u09tv").
  { apply demo_cells. rewrite !elem_of_cons. tauto. }
  split; [exact Hcell|]. split; [reflexivity|].
  apply (fake_user_listed (float_math glibc_points) pgh_points urllib_quote no_parse
           demo_spotify always_up demo_db "alice" demo_body
           48.8566%float 2.3522%float 5%float (rows_of (demo_search always_up).1)
           (demo_search always_up).2 "fake_user_7" demo_fake_user
           48.88%float 2.36%float 0x1.54f68b55ea1a7p+1%float "u09wj").
  - reflexivity.
  - vm_compute. reflexivity.
  - reflexivity.
  - done.
  - reflexivity.
  - reflexivity.
  - reflexivity.
  - exact Hcell.
  - reflexivity.
  - vm_compute. reflexivity.
  - vm_compute. reflexivity.
Defined.

(** alice's search on [paris_db]: nine cells of length 5, and bob once. *)
Lemma users_nearby_no_duplicates_witness :
  store_consistent pgh_points paris_db
  ∧ row_id <$> rows_of (users_nearby (float_math glibc_points) pgh_points urllib_quote no_parse
                          demo_spotify always_up paris_db (Some "alice") demo_body).1
    = ["bob"]
  ∧ NoDup (row_id <$> rows_of (users_nearby (float_math glibc_points) pgh_points urllib_quote
                                 no_parse demo_spotify always_up paris_db (Some "alice")
                                 demo_body).1).
Proof.
  split; [exact paris_db_consistent|]. split; [vm_compute; reflexivity|].
  apply (users_nearby_no_duplicates (float_math glibc_points) pgh_points urllib_quote no_parse
           demo_spotify always_up paris_db (Some "alice") demo_body
           48.8566%float 2.3522%float 5%float paris_db_consistent eq_refl).
  intros c Hc. apply (demo_cells c) in Hc.
  repeat (apply elem_of_cons in Hc as [->|Hc]; [reflexivity|]).
  by apply elem_of_nil in Hc.
Defined.

(** The search of the example when the query of the empty cell [u09wn]
    fails. *)
Lemma cell_failure_is_fatal_witness :
  "u09wn" ∈ get_all_neighbors pgh_points "u09tv"
  ∧ cell_down "u09wn" (FsStream "u09wn") = false
  ∧ ∃ e db', demo_search (cell_down "u09wn") = (Unhandled e, db').
Proof.
  assert (Hcell : "u09wn" ∈ get_all_neighbors pgh_points "u09tv").
  { apply demo_cells. rewrite !elem_of_cons. tauto. }
  split; [exact Hcell|]. split; [reflexivity|].
  apply (cell_failure_is_fatal (float_math glibc_points) pgh_points urllib_quote no_parse
           demo_spotify (cell_down "u09wn") demo_db "alice" demo_body
           48.8566%float 2.3522%float 5%float "u09wn"); [reflexivity|reflexivity|exact Hcell|
           reflexivity].
Defined.

(** A search with the radius -1. *)
Lemma negative_radius_empty_witness :
  read_body real_math (λ _, None) negative_body = Some (0%R, 0%R, (-1)%R)
  ∧ ∀ sp fs_ok db session_id,
      rows_of (users_nearby real_math one_cell urllib_quote (λ _, None) sp fs_ok db session_id
                 negative_body).1 = [].
Proof.
  split; [reflexivity|]. intros sp fs_ok db session_id.
  apply (negative_radius_empty one_cell urllib_quote (λ _, None) sp fs_ok db session_id
           negative_body 0%R 0%R (-1)%R eq_refl).
  lra.
Defined.

(** [paris_db] stays consistent when bob's token is refreshed by alice's
    search and when zoe logs in. *)
Lemma routes_keep_geohash_witness :
  store_consistent pgh_points paris_db
  ∧ store_consistent pgh_points
      (users_nearby (float_math glibc_points) pgh_points urllib_quote no_parse demo_spotify
         always_up paris_db (Some "alice") demo_body).2
  ∧ store_consistent pgh_points
      (callback pgh_points demo_login always_up paris_db None (Some "code-zoe")).1.2.
Proof.
  split; [exact paris_db_consistent|].
  destruct (routes_keep_geohash (float_math glibc_points) pgh_points urllib_quote no_parse
              demo_spotify demo_login always_up paris_db paris_db_consistent)
    as (_ & _ & Hcallback & _ & _ & Hsearch).
  split; [apply Hsearch|apply Hcallback].
Defined.

(** bob logs in again: his tokens are replaced, sharing is switched off, his
    position stays. *)
Lemma callback_effects_witness :
  ∃ db', callback pgh_points demo_login always_up paris_db None (Some "code-bob")
         = (RedirectFrontend, db', Some "bob")
         ∧ ∃ d', db' !! "bob" = Some d'
                 ∧ spotify_access_token d' = Some "access-bob-3"
                 ∧ location_sharing_enabled d' = Some false
                 ∧ latitude d' = Some 48.86%float
                 ∧ geohash d' = Some "u09tvnx".
Proof.
  eexists. split; [reflexivity|].
  destruct (callback_effects pgh_points demo_login always_up paris_db None (Some "code-bob")
              _ _ _ eq_refl) as [Hok _].
  destruct (Hok eq_refl)
    as (c & ti & id & d' & [= <-] & Hti & _ & [= <-] & Hd' & Htok & Hoff & Hlat & _ & Hgeo & _).
  vm_compute in Hti. injection Hti as <-.
  exists d'. split; [exact Hd'|]. split; [by injection Htok|]. split; [exact Hoff|].
  split; [exact Hlat|exact Hgeo].
Defined.

(** After that login no search lists bob, who was listed before. *)
Lemma login_unlists_witness :
  row_id <$> rows_of (users_nearby (float_math glibc_points) pgh_points urllib_quote no_parse
                        demo_spotify always_up paris_db (Some "alice") demo_body).1
  = ["bob"]
  ∧ unlisted (float_math glibc_points) pgh_points
      (callback pgh_points demo_login always_up paris_db None (Some "code-bob")).1.2 "bob".
Proof.
  split; [vm_compute; reflexivity|].
  apply (login_unlists (float_math glibc_points) pgh_points demo_login always_up paris_db
           None (Some "code-bob")).
  reflexivity.
Defined.

(** yann posts bob's position without [sharing=on]: the position is stored
    with its geohash, his tokens stay, and no search lists him. *)
Lemma update_location_effect_witness :
  ∃ db', update_location pgh_points demo_parse always_up paris_db (Some "yann")
           (LocationForm (Some "48.86") (Some "2.34") None) = (Status200, db')
         ∧ dom db' = dom paris_db
         ∧ db' !! "bob" = paris_db !! "bob"
         ∧ ∃ new, db' !! "yann" = Some new
                  ∧ spotify_access_token new = Some "access-yann"
                  ∧ location_sharing_enabled new = Some false
                  ∧ geohash new = Some "u09tvnx".
Proof.
  eexists. split; [reflexivity|].
  destruct (update_location_effect pgh_points demo_parse always_up paris_db (Some "yann")
              (LocationForm (Some "48.86") (Some "2.34") None) _ _ eq_refl)
    as (Hdom & Hframe & _ & Hok).
  split; [exact Hdom|]. split; [by apply Hframe|].
  destruct (Hok eq_refl)
    as (sid & old & new & [= <-] & [= <-] & Hnew & Htok & _ & _ & _ & _ & Hs & _).
  exists new. split; [exact Hnew|]. split; [by injection Htok|]. split; [exact Hs|].
  rewrite lookup_insert_eq in Hnew. by injection Hnew as <-.
Defined.

Lemma update_without_sharing_unlists_witness :
  form_sharing (LocationForm (Some "48.86") (Some "2.34") None) ≠ Some "on"
  ∧ unlisted (float_math glibc_points) pgh_points
      (update_location pgh_points demo_parse always_up paris_db (Some "yann")
         (LocationForm (Some "48.86") (Some "2.34") None)).2 "yann".
Proof.
  split; [done|].
  by apply (update_without_sharing_unlists (float_math glibc_points) pgh_points demo_parse
              always_up paris_db "yann" (LocationForm (Some "48.86") (Some "2.34") None)).
Defined.

